(** * The trace agent: receiver, concentrator and orchestrator

    A shallow embedding of [agent/concentrator.go] (the [Concentrator] and
    the [HTTPReceiver]), of the orchestrator ([Agent.Run], [Agent.Process])
    and of [model/span.go], with the properties of the specification proved
    about it.

    Go's [int64] and [uint64] are [Z]; the wrap-around of the signed
    operations is written out ([wrap64]).  A Go map is a [gmap]; a slice is a
    list, indexed with stdpp's lookup and insert.  A [panic] is the [Panic]
    result.  Logging and the statsd client are not modelled. *)

From Stdlib Require Import ZArith Lia String Ascii SpecFloat.
From stdpp Require Import base option list gmap strings fin_maps sorting.

Local Open Scope Z_scope.

(** ** Machine integers *)

Definition int64_min : Z := - 2 ^ 63.
Definition int64_max : Z := 2 ^ 63 - 1.

Definition in_int64 (z : Z) : Prop := int64_min <= z <= int64_max.

(** Two's complement wrap-around of a signed 64-bit result. *)
Definition wrap64 (z : Z) : Z := (z + 2 ^ 63) mod 2 ^ 64 - 2 ^ 63.

Definition add64 (a b : Z) : Z := wrap64 (a + b).
Definition sub64 (a b : Z) : Z := wrap64 (a - b).

(** Go's [%] on integers truncates toward zero: it is [Z.rem].  The caller
    checks for a zero divisor, on which Go panics. *)
Definition rem64 (a b : Z) : Z := Z.rem a b.

(** ** Results of code that may panic *)

Inductive result (A : Type) : Type :=
  | Ok (a : A)
  | Panic (msg : string).
Arguments Ok {A} a.
Arguments Panic {A} msg.

#[global] Instance result_ret : MRet result := fun A a => Ok a.

#[global] Instance result_bind : MBind result := fun A B k r =>
  match r with
  | Ok a => k a
  | Panic msg => Panic msg
  end.

(** A [for _, x := range xs] loop whose body may panic. *)
Fixpoint for_each {S A : Type} (body : S -> A -> result S) (xs : list A) (st : S)
  : result S :=
  match xs with
  | [] => Ok st
  | x :: xs' => st' ← body st x; for_each body xs' st'
  end.

(** ** model/span.go *)

Definition float64 : Type := spec_float.

Record Span : Type := {
  Service : string;
  Name : string;
  Resource : string;
  TraceID : Z;
  SpanID : Z;
  Start : Z;
  Duration : Z;
  Error : Z;
  Meta : gmap string string;
  Metrics : gmap string float64;
  ParentID : Z;
  Type_ : string
}.

Definition flushMarkerType : string := "_FLUSH_MARKER".

Definition IsFlushMarker (s : Span) : bool := String.eqb (Type_ s) flushMarkerType.

Definition NewFlushMarker : Span :=
  {| Service := ""; Name := ""; Resource := ""; TraceID := 0; SpanID := 0;
     Start := 0; Duration := 0; Error := 0; Meta := ∅; Metrics := ∅;
     ParentID := 0; Type_ := flushMarkerType |}.

(** [End] is [s.Start + s.Duration] on [int64]. *)
Definition End (s : Span) : Z := add64 (Start s) (Duration s).

(** [type Trace []Span] *)
Abbreviation Trace := (list Span).

(** ** The packages of the repository whose files are missing

    The [model] package's stats buckets, sublayers, normalizer and trace
    helpers, the [quantizer] package, and the decoders of the wire formats
    are used by the code below and are taken as an interface.  So is the
    order in which Go's [range] visits a map: it is unspecified, and each
    entry is visited once. *)

Class Packages : Type := {
  StatsBucket : Type;
  SublayerValue : Type;
  (** [model.NewStatsBucket(ts, d)] *)
  NewStatsBucket : Z -> Z -> StatsBucket;
  (** [b.HandleSpan(s, env, aggregators, sublayers)]: the bucket's maps are
      shared with the entry stored in the concentrator, so the update is a
      function on the stored bucket. *)
  HandleSpan : StatsBucket -> Span -> string -> list string ->
               option (list SublayerValue) -> StatsBucket;
  (** [s.Normalize()]: the span as it is left, and the error if any. *)
  Normalize : Span -> Span * option string;
  (** [quantizer.Quantize(s)] *)
  Quantize : Span -> Span;
  (** [model.ComputeSublayers(&t)]; [None] is the nil slice. *)
  ComputeSublayers : Trace -> option (list SublayerValue);
  (** [t.GetRoot()]: the returned pointer designates a span of the trace,
      given here by its index. *)
  GetRoot : Trace -> nat;
  (** [t.GetEnv()] *)
  GetEnv : Trace -> string;
  (** What [model.PinSublayersOnSpan] writes into the metrics of the root. *)
  pin_metrics : list SublayerValue -> gmap string float64 -> gmap string float64;
  (** [json.NewDecoder(body).Decode(&spans)], [nil] error as [Some]. *)
  json_decode_spans : list Byte.byte -> option (list Span);
  json_decode_traces : list Byte.byte -> option (list Trace);
  (** [codec.NewDecoder(body, &mh).Decode(&traces)] *)
  msgpack_decode_traces : list Byte.byte -> option (list Trace);
  (** The order of one [range] over a map. *)
  range_order : forall {V : Type}, gmap Z V -> list (Z * V);
  range_order_perm : forall (V : Type) (m : gmap Z V),
    range_order m ≡ₚ map_to_list m
}.

(** Modelled from the spec: [PinSublayersOnSpan] attaches the sublayers to
    the metrics of the root span and changes nothing else of it (its source,
    in the [model] package, is missing). *)
Definition PinSublayersOnSpan `{Packages} (s : Span) (sl : list SublayerValue) : Span :=
  {| Service := Service s; Name := Name s; Resource := Resource s;
     TraceID := TraceID s; SpanID := SpanID s; Start := Start s;
     Duration := Duration s; Error := Error s; Meta := Meta s;
     Metrics := pin_metrics sl (Metrics s);
     ParentID := ParentID s; Type_ := Type_ s |}.

(** ** agent/concentrator.go: the Concentrator *)

Section Concentrator.
Context `{Packages}.

Record processedTrace : Type := {
  pt_Trace : Trace;
  pt_Root : option Span;
  pt_Env : string;
  pt_Sublayers : option (list SublayerValue)
}.

(** The mutex [mu] is not a field of the model: [Add] and [Flush] hold it
    from their first statement to their return, so that each call is one
    atomic transformation of the state. *)
Record Concentrator : Type := {
  aggregators : list string;
  bsize : Z;
  buckets : gmap Z StatsBucket
}.

Definition set_buckets (c : Concentrator) (bs : gmap Z StatsBucket) : Concentrator :=
  {| aggregators := aggregators c; bsize := bsize c; buckets := bs |}.

(** [sort.Strings]: insertion into a list sorted by byte order. *)
Fixpoint insert_sorted (x : string) (xs : list string) : list string :=
  match xs with
  | [] => [x]
  | y :: ys => if String.leb x y then x :: xs else y :: insert_sorted x ys
  end.

Definition sort_Strings (xs : list string) : list string :=
  foldr insert_sorted [] xs.

Definition NewConcentrator (aggs : list string) (bs : Z) : Concentrator :=
  {| aggregators := sort_Strings aggs; bsize := bs; buckets := ∅ |}.

(** [btime := s.End() - s.End()%c.bsize] *)
Definition btime (c : Concentrator) (s : Span) : Z :=
  sub64 (End s) (rem64 (End s) (bsize c)).

(** [t.Root != nil && s.SpanID == t.Root.SpanID && t.Sublayers != nil] *)
Definition handles_sublayers (t : processedTrace) (s : Span) : bool :=
  match pt_Root t, pt_Sublayers t with
  | Some root, Some _ => SpanID s =? SpanID root
  | _, _ => false
  end.

(** The body of the loop of [Add]. *)
Definition add_span (t : processedTrace) (c : Concentrator) (s : Span)
  : result Concentrator :=
  if bsize c =? 0 then Panic "integer divide by zero"
  else
    let ts := btime c s in
    let '(b, bs) :=
      match buckets c !! ts with
      | Some b => (b, buckets c)
      | None =>
          let b := NewStatsBucket ts (bsize c) in
          (b, <[ts := b]> (buckets c))
      end in
    let b' :=
      if handles_sublayers t s
      then HandleSpan b s (pt_Env t) (aggregators c) (pt_Sublayers t)
      else HandleSpan b s (pt_Env t) (aggregators c) None in
    Ok (set_buckets c (<[ts := b']> bs)).

Definition Add (c : Concentrator) (t : processedTrace) : result Concentrator :=
  for_each (add_span t) (pt_Trace t) c.

(** The body of the loop of [Flush]: the result list and the map. *)
Definition flush_bucket (now bs : Z)
    (st : list StatsBucket * gmap Z StatsBucket) (e : Z * StatsBucket)
  : list StatsBucket * gmap Z StatsBucket :=
  let '(sb, m) := st in
  let '(ts, bucket) := e in
  if ts >? sub64 now bs then (sb, m)
  else (sb ++ [bucket], delete ts m).

(** [Flush] at wall-clock time [now] ([model.Now()]).  The loop deletes only
    the entry it is visiting, so it visits every entry of the map as it was
    on entry. *)
Definition Flush (c : Concentrator) (now : Z) : list StatsBucket * Concentrator :=
  let '(sb, m) :=
    foldl (flush_bucket now (bsize c)) ([], buckets c) (range_order (buckets c)) in
  (sb, set_buckets c m).

(** *** Vocabulary of the properties *)

(** A bucket is complete at [now] when it started at most one bucket size
    before, in the arithmetic of the code. *)
Definition complete (now bs : Z) (e : Z * StatsBucket) : Prop :=
  e.1 <= sub64 now bs.

#[global] Instance complete_dec (now bs : Z) (e : Z * StatsBucket) : Decision (complete now bs e).
Proof. unfold complete. apply _. Defined.

(** Every key of the bucket map is a multiple of the bucket size. *)
Definition keys_aligned (c : Concentrator) : Prop :=
  forall ts, is_Some (buckets c !! ts) -> (bsize c | ts).

(** What [Add] does to the bucket of one span. *)
Definition record_span (t : processedTrace) (aggs : list string) (b : StatsBucket)
    (s : Span) : StatsBucket :=
  HandleSpan b s (pt_Env t) aggs
    (if handles_sublayers t s then pt_Sublayers t else None).

(** The entry under key [k] after the spans [ss] were added: a span changes
    it only if [k] is the start of its bucket. *)
Definition recorded (t : processedTrace) (c : Concentrator) (k : Z) (ss : list Span)
    (o : option StatsBucket)
  : option StatsBucket :=
  foldl (fun o s =>
           if decide (btime c s = k)
           then Some (record_span t (aggregators c)
                        (default (NewStatsBucket k (bsize c)) o) s)
           else o) o ss.

End Concentrator.

(** ** Slices: the elements at a list of indices *)

Section Slices.
Context {A : Type}.

(** The elements of [l] at the indices [D]. *)
Definition pick (D : list nat) (l : list A) : list A := omap (fun i => l !! i) D.

(** Indices that decrease strictly, the first below [n]. *)
Fixpoint desc_below (n : nat) (D : list nat) : Prop :=
  match D with
  | [] => True
  | i :: D' => (i < n)%nat /\ desc_below i D'
  end.

End Slices.

(** ** agent/concentrator.go: the HTTP receiver *)

Definition nl : string := String "010"%char EmptyString.

(** *** net/http's response writer

    The status line is fixed by the first [WriteHeader], or by the first
    [Write] (which implies [WriteHeader(200)]); later calls of [WriteHeader]
    change nothing. *)
Record ResponseWriter : Type := {
  wroteHeader : option Z;
  written : string
}.

Definition new_ResponseWriter : ResponseWriter :=
  {| wroteHeader := None; written := "" |}.

Definition WriteHeader (w : ResponseWriter) (code : Z) : ResponseWriter :=
  match wroteHeader w with
  | Some _ => w
  | None => {| wroteHeader := Some code; written := written w |}
  end.

Definition Write (w : ResponseWriter) (data : string) : ResponseWriter :=
  let w' := WriteHeader w 200 in
  {| wroteHeader := wroteHeader w'; written := (written w' ++ data)%string |}.

(** [http.Error(w, error, code)] *)
Definition http_Error (w : ResponseWriter) (error : string) (code : Z) : ResponseWriter :=
  Write (WriteHeader w code) (error ++ nl)%string.

(** [HTTPErrorAndLog(w, code, errClient, err, tags)], without its log line
    and its statsd counter. *)
Definition HTTPErrorAndLog (w : ResponseWriter) (code : Z) (errClient : string)
  : ResponseWriter :=
  http_Error w errClient code.

(** [HTTPOK(w, tags)] *)
Definition HTTPOK (w : ResponseWriter) : ResponseWriter :=
  Write (WriteHeader w 200) ("OK" ++ nl)%string.

(** *** The request

    [Body] is [None] for a nil body; otherwise it holds what
    [ioutil.ReadAll(r.Body)] returns. *)
Inductive ReadAll_result : Type :=
  | ReadOk (bodyBytes : list Byte.byte)
  | ReadErr.

Record Request : Type := {
  Body : option ReadAll_result;
  ContentType : string
}.

Definition APIVersion : Type := Z.
Definition v01 : APIVersion := 0.
Definition v02 : APIVersion := 1.
Definition v03 : APIVersion := 2.

Record receiverStats : Type := {
  Errors : Z;
  SpansReceived : Z;
  TracesReceived : Z;
  SpansDropped : Z;
  TracesDropped : Z
}.

(** The channel [traces] holds the traces sent on it, oldest first; that a
    send blocks while 50 traces wait is not modelled. *)
Record HTTPReceiver : Type := {
  traces : list Trace;
  stats : receiverStats
}.

Definition NewHTTPReceiver : HTTPReceiver :=
  {| traces := [];
     stats := {| Errors := 0; SpansReceived := 0; TracesReceived := 0;
                 SpansDropped := 0; TracesDropped := 0 |} |}.

(** The content-type test of the v0.1 and v0.2 endpoints. *)
Definition unsupported_media_type (contentType : string) : bool :=
  negb (String.eqb contentType "application/json")
  && negb (String.eqb contentType "text/json")
  && negb (String.eqb contentType "").

Section Receiver.
Context `{Packages}.

(** [initDecoder(contentType, bodyBuffer)] followed by [Decode(&traces)] *)
Definition initDecoder (contentType : string) (bodyBytes : list Byte.byte)
  : option (list Trace) :=
  if String.eqb contentType "application/msgpack"
  then msgpack_decode_traces bodyBytes
  else json_decode_traces bodyBytes.

(** [byID[s.TraceID] = append(byID[s.TraceID], s)] over the spans *)
Definition group_byID (spans : list Span) : gmap Z (list Span) :=
  foldl (fun byID s => <[TraceID s := default [] (byID !! TraceID s) ++ [s]]> byID)
        ∅ spans.

(** *** The loop over the decoded traces

    The counters [stotal], [sdropped], [ttotal] and [tdropped] are Go [int]s
    that count spans and traces held in memory; they are exact integers
    here. *)
Record loop_state : Type := {
  chan : list Trace;
  stotal : Z;
  sdropped : Z;
  ttotal : Z;
  tdropped : Z
}.

Definition loop_start (l : HTTPReceiver) : loop_state :=
  {| chan := traces l; stotal := 0; sdropped := 0; ttotal := 0; tdropped := 0 |}.

Inductive scan_result : Type :=
  | Mismatch
  | Scanned (t : Trace) (toRemove : list nat).

(** The inner loop [for i := range t], with [n] iterations left: the check
    of the trace ID against [id], then [t[i].Normalize()] in place. *)
Fixpoint normalize_from (n i : nat) (id : Z) (t : Trace) (toRemove : list nat)
  : scan_result :=
  match n with
  | O => Scanned t toRemove
  | S n' =>
      match t !! i with
      | None => Scanned t toRemove
      | Some s =>
          if negb (i =? 0)%nat && negb (TraceID s =? id) then Mismatch
          else
            let id := TraceID s in
            let '(s', err) := Normalize s in
            let t := <[i := s']> t in
            let toRemove :=
              match err with
              | Some _ => toRemove ++ [i]
              | None => toRemove
              end in
            normalize_from n' (S i) id t toRemove
      end
  end.

(** The loop [for i := len(toRemove)-1; i >= 0; i--] over the indices it
    reads, last first: the debug panic, then [t[idx] = t[len(t)-1]] and
    [t = t[:len(t)-1]]. *)
Fixpoint remove_from (idxs : list nat) (t : Trace) : result Trace :=
  match idxs with
  | [] => Ok t
  | idx :: rest =>
      if Z.of_nat idx >? Z.of_nat (length t) - 1 then Panic "NO"
      else
        match t !! (length t - 1)%nat with
        | None => Panic "index out of range"
        | Some last => remove_from rest (take (length t - 1) (<[idx := last]> t))
        end
  end.

Definition swap_and_truncate (toRemove : list nat) (t : Trace) : result Trace :=
  remove_from (reverse toRemove) t.

(** One iteration of the loop labelled [Traces]. *)
Definition handle_trace (st : loop_state) (t : Trace) : result loop_state :=
  match normalize_from (length t) 0 0 t [] with
  | Mismatch =>
      Ok {| chan := chan st;
            stotal := stotal st + Z.of_nat (length t);
            sdropped := sdropped st + Z.of_nat (length t);
            ttotal := ttotal st;
            tdropped := tdropped st + 1 |}
  | Scanned t toRemove =>
      let stotal' := stotal st + Z.of_nat (length t) in
      let sdropped' := sdropped st + Z.of_nat (length toRemove) in
      if (length toRemove =? length t)%nat then
        Ok {| chan := chan st; stotal := stotal'; sdropped := sdropped';
              ttotal := ttotal st; tdropped := tdropped st + 1 |}
      else
        t' ← swap_and_truncate toRemove t;
        match t' with
        | [] => Panic "index out of range"
        | _ :: _ =>
            Ok {| chan := chan st ++ [t']; stotal := stotal'; sdropped := sdropped';
                  ttotal := ttotal st + 1; tdropped := tdropped st |}
        end
  end.

(** The four [atomic.AddInt64] at the end of [handleTraces]. *)
Definition log_stats (l : HTTPReceiver) (st : loop_state) : HTTPReceiver :=
  {| traces := chan st;
     stats := {| Errors := Errors (stats l);
                 SpansReceived := add64 (SpansReceived (stats l)) (stotal st);
                 TracesReceived := add64 (TracesReceived (stats l)) (ttotal st);
                 SpansDropped := add64 (SpansDropped (stats l)) (sdropped st);
                 TracesDropped := add64 (TracesDropped (stats l)) (tdropped st) |} |}.

(** What the [switch v] of [handleTraces] leaves: the handler has returned,
    or it goes on with the decoded traces. *)
Inductive switch_result : Type :=
  | Returned (w : ResponseWriter)
  | Decoded (w : ResponseWriter) (traces : list Trace).

Definition decode_switch (v : APIVersion) (w : ResponseWriter)
    (contentType : string) (bodyBytes : list Byte.byte) : switch_result :=
  if v =? v01 then
    if unsupported_media_type contentType
    then Returned (HTTPErrorAndLog w 415 "decoding-error")
    else
      match json_decode_spans bodyBytes with
      | None => Returned (HTTPErrorAndLog w 500 "decoding-error")
      | Some spans => Decoded w (range_order (group_byID spans)).*2
      end
  else if v =? v02 then
    if unsupported_media_type contentType
    then Returned (HTTPErrorAndLog w 415 "decoding-error")
    else
      match json_decode_traces bodyBytes with
      | None => Returned (HTTPErrorAndLog w 500 "decoding-error")
      | Some traces => Decoded w traces
      end
  else if v =? v03 then
    match initDecoder contentType bodyBytes with
    | None => Returned (HTTPErrorAndLog w 500 "decoding-error")
    | Some traces => Decoded w traces
    end
  else Decoded (HTTPErrorAndLog w 500 "unsupported-endpoint") [].

(** [handleTraces(v, w, r)] on the receiver [l]. *)
Definition handleTraces (v : APIVersion) (l : HTTPReceiver) (w : ResponseWriter)
    (r : Request) : result (HTTPReceiver * ResponseWriter) :=
  match Body r with
  | None => Ok (l, w)
  | Some ReadErr => Ok (l, w)
  | Some (ReadOk bodyBytes) =>
      match decode_switch v w (ContentType r) bodyBytes with
      | Returned w' => Ok (l, w')
      | Decoded w' traces =>
          let w'' := HTTPOK w' in
          st ← for_each handle_trace traces (loop_start l);
          Ok (log_stats l st, w'')
      end
  end.

(** *** Vocabulary of the properties *)

(** The span as [Normalize] leaves it, and whether it returned an error. *)
Definition normalized (s : Span) : Span := (Normalize s).1.
Definition fails (s : Span) : Prop := is_Some (Normalize s).2.

#[global] Instance fails_dec (s : Span) : Decision (fails s).
Proof. unfold fails. apply _. Defined.

(** The spans of a trace that normalize, and those that do not. *)
Definition kept (t : Trace) : list Span := normalized <$> filter (fun s => ~ fails s) t.
Definition failed (t : Trace) : list Span := normalized <$> filter fails t.

(** All spans of the trace share one trace ID. *)
Definition same_trace_id (t : Trace) : Prop :=
  forall s1 s2, s1 ∈ t -> s2 ∈ t -> TraceID s1 = TraceID s2.

#[global] Instance same_trace_id_dec (t : Trace) : Decision (same_trace_id t).
Proof.
  destruct (decide (Forall (fun s1 => Forall (fun s2 => TraceID s1 = TraceID s2) t) t))
    as [Hall | Hn].
  - left. intros s1 s2 H1 H2. rewrite Forall_forall in Hall.
    specialize (Hall s1 H1). rewrite Forall_forall in Hall. by apply Hall.
  - right. intros Hsame. apply Hn. apply Forall_forall. intros s1 H1.
    apply Forall_forall. intros s2 H2. by apply Hsame.
Defined.

(** The normalization loop once more, by recursion on the spans not yet
    visited, the first at index [i]: the trace as it is left, and the
    indices to remove.  [normalize_from], which follows the source, is
    shown to compute this. *)
Fixpoint scan (i : nat) (id : Z) (l : list Span) : option (list Span * list nat) :=
  match l with
  | [] => Some ([], [])
  | s :: l' =>
      if negb (i =? 0)%nat && negb (TraceID s =? id) then None
      else
        match scan (S i) (TraceID s) l' with
        | None => None
        | Some (l'', R) =>
            Some (normalized s :: l'',
                  if decide (fails s) then i :: R else R)
        end
  end.

(** The indices, counted from [i], of the spans that fail. *)
Fixpoint fail_indices (i : nat) (l : list Span) : list nat :=
  match l with
  | [] => []
  | s :: l' => if decide (fails s) then i :: fail_indices (S i) l'
               else fail_indices (S i) l'
  end.

(** The state after a trace was dropped whole, and after the spans [t']
    of it were forwarded. *)
Definition drop_whole (st : loop_state) (t : Trace) : loop_state :=
  {| chan := chan st;
     stotal := stotal st + Z.of_nat (length t);
     sdropped := sdropped st + Z.of_nat (length t);
     ttotal := ttotal st;
     tdropped := tdropped st + 1 |}.

Definition forward (st : loop_state) (t t' : Trace) : loop_state :=
  {| chan := chan st ++ [t'];
     stotal := stotal st + Z.of_nat (length t);
     sdropped := sdropped st + (Z.of_nat (length t) - Z.of_nat (length t'));
     ttotal := ttotal st + 1;
     tdropped := tdropped st |}.

(** The spans held by the traces of a list. *)
Definition spans_in (ts : list Trace) : Z :=
  foldr (fun t n => Z.of_nat (length t) + n) 0 ts.

(** Adding to the counters before the loop or after it is the same. *)
Definition bump (a b d : Z) (st : loop_state) : loop_state :=
  {| chan := chan st; stotal := stotal st + a; sdropped := sdropped st + b;
     ttotal := ttotal st; tdropped := tdropped st + d |}.

End Receiver.

(** ** The orchestrator: [Agent.Process] and the tick of [Agent.Run] *)

Record AgentConfig : Type := {
  HostName : string;
  DefaultEnv : string;
  BucketInterval : Z;
  OldestSpanCutoff : Z;
  ExtraAggregators : list string
}.

(** Modelled from the spec: the sampler stages the traces it keeps, and
    [flush() -> []Trace] swaps the staged buffer and returns it (the
    [Sampler.Flush] that [Agent.Run] calls is not the one of
    [agent/sampler.go]; its source is missing). *)
Record Sampler : Type := {
  staged : list Trace
}.

Definition Sampler_Flush (s : Sampler) : list Trace * Sampler :=
  (staged s, {| staged := [] |}).

Section Agent.
Context `{Packages}.

Record AgentPayload : Type := {
  p_HostName : string;
  p_Env : string;
  p_Stats : list StatsBucket;
  p_Traces : list Trace
}.

(** The calls started with [go] at the end of [Process]. *)
Inductive goroutine : Type :=
  | go_Concentrator_Add (pt : processedTrace)
  | go_Sampler_Add (pt : processedTrace).

Record Agent : Type := {
  Receiver : HTTPReceiver;
  Concentrator_ : Concentrator;
  Sampler_ : Sampler;
  inPayloads : list AgentPayload;   (* the channel [Writer.inPayloads] *)
  conf : AgentConfig;
  goroutines : list goroutine       (* started, not yet run *)
}.

Definition NewAgent (cf : AgentConfig) : Agent :=
  {| Receiver := NewHTTPReceiver;
     Concentrator_ := NewConcentrator (ExtraAggregators cf) (BucketInterval cf);
     Sampler_ := {| staged := [] |};
     inPayloads := [];
     conf := cf;
     goroutines := [] |}.

(** [a.Process(t)] at wall-clock time [now]: the goroutines it starts. *)
Definition Process (cf : AgentConfig) (now : Z) (t : Trace) : result (list goroutine) :=
  if (length t =? 0)%nat then Ok []
  else
    let sublayers := ComputeSublayers t in
    let root := GetRoot t in
    match t !! root with
    | None => Panic "nil pointer dereference"
    | Some r =>
        let t := <[root := PinSublayersOnSpan r (default [] sublayers)]> t in
        match t !! root with
        | None => Panic "nil pointer dereference"
        | Some r =>
            if End r <? sub64 now (OldestSpanCutoff cf) then Ok []
            else
              let t := Quantize <$> t in
              let pt := {| pt_Trace := t; pt_Root := t !! root;
                           pt_Env := GetEnv t; pt_Sublayers := sublayers |} in
              Ok [go_Concentrator_Add pt; go_Sampler_Add pt]
        end
    end.

(** The branch [case t := <-a.Receiver.traces] of [Run]. *)
Definition receive_trace (a : Agent) (now : Z) : result Agent :=
  match traces (Receiver a) with
  | [] => Ok a
  | t :: rest =>
      gs ← Process (conf a) now t;
      Ok {| Receiver := {| traces := rest; stats := stats (Receiver a) |};
            Concentrator_ := Concentrator_ a;
            Sampler_ := Sampler_ a;
            inPayloads := inPayloads a;
            conf := conf a;
            goroutines := goroutines a ++ gs |}
  end.

(** *** The tick

    The branch [case <-flushTicker.C] runs three tasks: the loop of [Run]
    and the two goroutines it starts.  They share the variable [p] and the
    WaitGroup [wg].  The source has no [wg.Wait()], so no statement of the
    loop waits for a goroutine: any task that has a statement left may
    take the next step. *)
Inductive task : Type := RunLoop | FlushStats | FlushTraces.

Record tick_state : Type := {
  t_conc : Concentrator;
  t_sampler : Sampler;
  t_inPayloads : list AgentPayload;
  t_p : AgentPayload;
  t_wg : Z;
  pc_loop : nat;                  (* statements of the branch done *)
  pc_stats : option nat;          (* [None]: not started *)
  pc_traces : option nat
}.

Definition tick_start (a : Agent) : tick_state :=
  {| t_conc := Concentrator_ a; t_sampler := Sampler_ a;
     t_inPayloads := inPayloads a;
     t_p := {| p_HostName := ""; p_Env := ""; p_Stats := []; p_Traces := [] |};
     t_wg := 0; pc_loop := 0; pc_stats := None; pc_traces := None |}.

Definition tick_step (cf : AgentConfig) (now : Z) (who : task) (st : tick_state)
  : option tick_state :=
  match who with
  | RunLoop =>
      match pc_loop st with
      | 0%nat => (* p := model.AgentPayload{HostName: ..., Env: ...} *)
          Some {| t_conc := t_conc st; t_sampler := t_sampler st;
                  t_inPayloads := t_inPayloads st;
                  t_p := {| p_HostName := HostName cf; p_Env := DefaultEnv cf;
                            p_Stats := []; p_Traces := [] |};
                  t_wg := t_wg st; pc_loop := 1;
                  pc_stats := pc_stats st; pc_traces := pc_traces st |}
      | 1%nat => (* wg.Add(2) *)
          Some {| t_conc := t_conc st; t_sampler := t_sampler st;
                  t_inPayloads := t_inPayloads st; t_p := t_p st;
                  t_wg := t_wg st + 2; pc_loop := 2;
                  pc_stats := pc_stats st; pc_traces := pc_traces st |}
      | 2%nat => (* go func() { ... Concentrator.Flush() }() *)
          Some {| t_conc := t_conc st; t_sampler := t_sampler st;
                  t_inPayloads := t_inPayloads st; t_p := t_p st;
                  t_wg := t_wg st; pc_loop := 3;
                  pc_stats := Some 0%nat; pc_traces := pc_traces st |}
      | 3%nat => (* go func() { ... Sampler.Flush() }() *)
          Some {| t_conc := t_conc st; t_sampler := t_sampler st;
                  t_inPayloads := t_inPayloads st; t_p := t_p st;
                  t_wg := t_wg st; pc_loop := 4;
                  pc_stats := pc_stats st; pc_traces := Some 0%nat |}
      | 4%nat => (* a.Writer.inPayloads <- p *)
          Some {| t_conc := t_conc st; t_sampler := t_sampler st;
                  t_inPayloads := t_inPayloads st ++ [t_p st]; t_p := t_p st;
                  t_wg := t_wg st; pc_loop := 5;
                  pc_stats := pc_stats st; pc_traces := pc_traces st |}
      | _ => None
      end
  | FlushStats =>
      match pc_stats st with
      | Some 0%nat => (* p.Stats = a.Concentrator.Flush() *)
          let '(sb, c) := Flush (t_conc st) now in
          Some {| t_conc := c; t_sampler := t_sampler st;
                  t_inPayloads := t_inPayloads st;
                  t_p := {| p_HostName := p_HostName (t_p st); p_Env := p_Env (t_p st);
                            p_Stats := sb; p_Traces := p_Traces (t_p st) |};
                  t_wg := t_wg st; pc_loop := pc_loop st;
                  pc_stats := Some 1%nat; pc_traces := pc_traces st |}
      | Some 1%nat => (* defer wg.Done() *)
          Some {| t_conc := t_conc st; t_sampler := t_sampler st;
                  t_inPayloads := t_inPayloads st; t_p := t_p st;
                  t_wg := t_wg st - 1; pc_loop := pc_loop st;
                  pc_stats := Some 2%nat; pc_traces := pc_traces st |}
      | _ => None
      end
  | FlushTraces =>
      match pc_traces st with
      | Some 0%nat => (* p.Traces = a.Sampler.Flush() *)
          let '(ts, s) := Sampler_Flush (t_sampler st) in
          Some {| t_conc := t_conc st; t_sampler := s;
                  t_inPayloads := t_inPayloads st;
                  t_p := {| p_HostName := p_HostName (t_p st); p_Env := p_Env (t_p st);
                            p_Stats := p_Stats (t_p st); p_Traces := ts |};
                  t_wg := t_wg st; pc_loop := pc_loop st;
                  pc_stats := pc_stats st; pc_traces := Some 1%nat |}
      | Some 1%nat => (* defer wg.Done() *)
          Some {| t_conc := t_conc st; t_sampler := t_sampler st;
                  t_inPayloads := t_inPayloads st; t_p := t_p st;
                  t_wg := t_wg st - 1; pc_loop := pc_loop st;
                  pc_stats := pc_stats st; pc_traces := Some 2%nat |}
      | _ => None
      end
  end.

(** A schedule is the order in which the tasks take their steps. *)
Fixpoint run_schedule (cf : AgentConfig) (now : Z) (sched : list task)
    (st : tick_state) : option tick_state :=
  match sched with
  | [] => Some st
  | who :: sched' =>
      match tick_step cf now who st with
      | Some st' => run_schedule cf now sched' st'
      | None => None
      end
  end.

(** The schedule in which the loop of [Run] runs the whole branch, and
    the goroutines run after it. *)
Definition loop_first : list task :=
  [RunLoop; RunLoop; RunLoop; RunLoop; RunLoop;
   FlushStats; FlushStats; FlushTraces; FlushTraces].

(** The schedule in which both goroutines have finished when the loop
    sends the payload. *)
Definition flushes_first : list task :=
  [RunLoop; RunLoop; RunLoop; RunLoop;
   FlushStats; FlushStats; FlushTraces; FlushTraces; RunLoop].

(** All three tasks have run to their end. *)
Definition tick_done (st : tick_state) : Prop :=
  pc_loop st = 5%nat /\ pc_stats st = Some 2%nat /\ pc_traces st = Some 2%nat.

End Agent.

(** ** A concrete instance of the missing packages

    Small stand-ins, used to run the model on concrete inputs: a bucket
    that lists the spans it handled, the normalizer's rule on zero IDs,
    and a wire format of one byte per span. *)

Record demo_bucket : Type := {
  db_start : Z;
  db_duration : Z;
  db_spans : list Z
}.

Definition demo_HandleSpan (b : demo_bucket) (s : Span) (env : string)
    (aggs : list string) (sl : option (list unit)) : demo_bucket :=
  {| db_start := db_start b; db_duration := db_duration b;
     db_spans := db_spans b ++ [SpanID s] |}.

Definition demo_Normalize (s : Span) : Span * option string :=
  (s, if (TraceID s =? 0) || (SpanID s =? 0) then Some "invalid ID" else None).

Definition mk_span (trace_id span_id start duration : Z) : Span :=
  {| Service := "s"; Name := "n"; Resource := "r"; TraceID := trace_id;
     SpanID := span_id; Start := start; Duration := duration; Error := 0;
     Meta := ∅; Metrics := ∅; ParentID := 0; Type_ := "" |}.

(** One byte per span: the high digit is the trace ID, the low one the
    span ID. *)
Definition demo_span (b : Byte.byte) : Span :=
  let n := Z.of_N (Byte.to_N b) in
  mk_span (n / 16) (n mod 16) 0 0.

Definition demo_decode_spans (body : list Byte.byte) : option (list Span) :=
  match body with
  | [] => None
  | _ => Some (demo_span <$> body)
  end.

Definition demo_decode_traces (body : list Byte.byte) : option (list Trace) :=
  match body with
  | [] => None
  | _ => Some [demo_span <$> body]
  end.

#[local] Instance demo : Packages := {|
  StatsBucket := demo_bucket;
  SublayerValue := unit;
  NewStatsBucket ts d := {| db_start := ts; db_duration := d; db_spans := [] |};
  HandleSpan := demo_HandleSpan;
  Normalize := demo_Normalize;
  Quantize s := s;
  ComputeSublayers _ := None;
  GetRoot _ := 0%nat;
  GetEnv _ := "none";
  pin_metrics _ m := m;
  json_decode_spans := demo_decode_spans;
  json_decode_traces := demo_decode_traces;
  msgpack_decode_traces := demo_decode_traces;
  range_order V m := map_to_list m;
  range_order_perm V m := reflexivity (map_to_list m)
|}.

(** A concentrator with buckets of size 5 and one bucket, started at 10;
    a processed trace whose spans end at 12, 7 and 13. *)
Definition demo_b (ts : Z) (ids : list Z) : demo_bucket :=
  {| db_start := ts; db_duration := 5; db_spans := ids |}.

Definition demo_conc : Concentrator :=
  {| aggregators := []; bsize := 5; buckets := {[ 10 := demo_b 10 [1] ]} |}.

Definition demo_pt : processedTrace :=
  {| pt_Trace := [mk_span 1 1 10 2; mk_span 1 2 3 4; mk_span 1 3 10 3];
     pt_Root := None; pt_Env := "none"; pt_Sublayers := None |}.

(** Request bodies: spans with the trace IDs 7, 7 and 8; one span. *)
Definition body_778 : list Byte.byte := [Byte.x71; Byte.x72; Byte.x83].
Definition body_11 : list Byte.byte := [Byte.x11].

(** A trace whose second span has no span ID. *)
Definition trace_710 : Trace := [mk_span 7 1 0 0; mk_span 7 0 0 0; mk_span 7 3 0 0].

(** An agent with a cutoff of 30 that has received a trace ended at 40,
    whose concentrator holds a complete bucket and whose sampler has
    staged a trace. *)
Definition demo_conf : AgentConfig :=
  {| HostName := "h"; DefaultEnv := "e"; BucketInterval := 5;
     OldestSpanCutoff := 30; ExtraAggregators := [] |}.

Definition demo_agent : Agent :=
  {| Receiver := {| traces := [[mk_span 1 1 0 40]]; stats := stats NewHTTPReceiver |};
     Concentrator_ := demo_conc;
     Sampler_ := {| staged := [[mk_span 2 1 0 1]] |};
     inPayloads := [];
     conf := demo_conf;
     goroutines := [] |}.

(** ** Further code of the same files *)

(** *** agent/concentrator.go: [handleServices] *)

(** [model.ServicesMetadata], a map from service to metadata. *)
Abbreviation ServicesMetadata := (gmap string (gmap string string)).

(** The decoders of a services payload ([Decode(&servicesMeta)] on a JSON
    and on a msgpack decoder), [nil] error as [Some]. *)
Class ServicesDecoders : Type := {
  json_decode_services : list Byte.byte -> option ServicesMetadata;
  msgpack_decode_services : list Byte.byte -> option ServicesMetadata
}.

Section Services.
Context `{ServicesDecoders}.

(** What the [switch v] of [handleServices] leaves: the handler has
    returned, or it goes on with the decoded metadata. *)
Inductive services_switch : Type :=
  | ServicesReturned (w : ResponseWriter)
  | ServicesDecoded (w : ResponseWriter) (servicesMeta : ServicesMetadata).

(** The branch [case v02]; [case v01] falls through to it. *)
Definition services_v02 (w : ResponseWriter) (contentType : string)
    (bodyBytes : list Byte.byte) : services_switch :=
  if unsupported_media_type contentType
  then ServicesReturned (HTTPErrorAndLog w 415 "decoding-error")
  else
    match json_decode_services bodyBytes with
    | None => ServicesReturned (HTTPErrorAndLog w 500 "decoding-error")
    | Some servicesMeta => ServicesDecoded w servicesMeta
    end.

(** [handleServices(v, w, r)] on the channel [services] of the receiver,
    which holds the metadata sent on it, oldest first. *)
Definition handleServices (v : APIVersion) (services : list ServicesMetadata)
    (w : ResponseWriter) (r : Request) : list ServicesMetadata * ResponseWriter :=
  match Body r with
  | None => (services, w)
  | Some ReadErr => (services, w)
  | Some (ReadOk bodyBytes) =>
      let sw :=
        if v =? v01 then services_v02 w (ContentType r) bodyBytes
        else if v =? v02 then services_v02 w (ContentType r) bodyBytes
        else if v =? v03 then
          match (if String.eqb (ContentType r) "application/msgpack"
                 then msgpack_decode_services bodyBytes
                 else json_decode_services bodyBytes) with
          | None => ServicesReturned (HTTPErrorAndLog w 500 "decoding-error")
          | Some servicesMeta => ServicesDecoded w servicesMeta
          end
        else ServicesDecoded (HTTPErrorAndLog w 500 "unsupported-endpoint") ∅ in
      match sw with
      | ServicesReturned w' => (services, w')
      | ServicesDecoded w' servicesMeta => (services ++ [servicesMeta], HTTPOK w')
      end
  end.

End Services.

Section FurtherCode.
Context `{Packages}.

(** The effect on the concentrator of a goroutine that [Process] started;
    [Sampler.Add] does not touch it. *)
Definition run_goroutine (c : Concentrator) (g : goroutine) : result Concentrator :=
  match g with
  | go_Concentrator_Add pt => Add c pt
  | go_Sampler_Add _ => Ok c
  end.

(** *** agent/sampler.go: the loop of [Sampler.run]

    [SamplerEngine] is the interface of the source; its two methods change
    the engine, so they return it. *)
Class SamplerEngine (E : Type) : Type := {
  AddSpan : E -> Span -> E;
  FlushPayload : E -> AgentPayload -> AgentPayload * E
}.

(** What the [select] of the loop receives. *)
Inductive sampler_event : Type :=
  | recv_inSpans (span : Span)
  | recv_inPayloads (ap : AgentPayload)
  | recv_exit.

(** The sampler: its engine, what it sent on [out], and whether [run] has
    returned. *)
Record sampler_state (E : Type) : Type := {
  s_se : E;
  s_out : list AgentPayload;
  s_returned : bool
}.
Arguments s_se {E} _.
Arguments s_out {E} _.
Arguments s_returned {E} _.

Fixpoint Sampler_run {E : Type} `{SamplerEngine E} (events : list sampler_event)
    (st : sampler_state E) : sampler_state E :=
  match events with
  | [] => st
  | recv_inSpans span :: events' =>
      Sampler_run events'
        {| s_se := AddSpan (s_se st) span; s_out := s_out st;
           s_returned := s_returned st |}
  | recv_inPayloads ap :: events' =>
      let '(p, e) := FlushPayload (s_se st) ap in
      Sampler_run events'
        {| s_se := e; s_out := s_out st ++ [p]; s_returned := s_returned st |}
  | recv_exit :: _ =>
      {| s_se := s_se st; s_out := s_out st; s_returned := true |}
  end.

(** The payloads received before the first exit. *)
Fixpoint payloads_before_exit (events : list sampler_event) : list AgentPayload :=
  match events with
  | [] => []
  | recv_inSpans _ :: events' => payloads_before_exit events'
  | recv_inPayloads ap :: events' => ap :: payloads_before_exit events'
  | recv_exit :: _ => []
  end.

(** *** The tick under every schedule

    What holds of the state of a tick after any number of steps, by the
    statements each task has done. *)
Definition flush_done (pc : option nat) : bool :=
  match pc with
  | Some (S _) => true
  | _ => false
  end.

Definition done_count (pc : option nat) : Z :=
  match pc with
  | Some (S (S _)) => 1
  | _ => 0
  end.

(** A payload of this tick: the configured host and environment, and for
    the stats and for the traces either nothing or the whole result of the
    flush. *)
Definition payload_of_tick (a : Agent) (cf : AgentConfig) (now : Z)
    (p : AgentPayload) : Prop :=
  p_HostName p = HostName cf
  /\ p_Env p = DefaultEnv cf
  /\ (p_Stats p = [] \/ p_Stats p = (Flush (Concentrator_ a) now).1)
  /\ (p_Traces p = [] \/ p_Traces p = staged (Sampler_ a)).

Definition tick_inv (a : Agent) (cf : AgentConfig) (now : Z) (st : tick_state) : Prop :=
  t_conc st = (if flush_done (pc_stats st) then (Flush (Concentrator_ a) now).2
               else Concentrator_ a)
  /\ t_sampler st = (if flush_done (pc_traces st) then {| staged := [] |}
                     else Sampler_ a)
  /\ p_Stats (t_p st) = (if flush_done (pc_stats st)
                         then (Flush (Concentrator_ a) now).1 else [])
  /\ p_Traces (t_p st) = (if flush_done (pc_traces st)
                          then staged (Sampler_ a) else [])
  /\ ((1 <= pc_loop st)%nat ->
        p_HostName (t_p st) = HostName cf /\ p_Env (t_p st) = DefaultEnv cf)
  /\ (pc_loop st <= 5)%nat
  /\ ((pc_loop st <= 2)%nat -> pc_stats st = None)
  /\ ((pc_loop st <= 3)%nat -> pc_traces st = None)
  /\ (if (pc_loop st =? 5)%nat
      then exists p, t_inPayloads st = inPayloads a ++ [p] /\ payload_of_tick a cf now p
      else t_inPayloads st = inPayloads a)
  /\ t_wg st = (if (2 <=? pc_loop st)%nat then 2 else 0)
               - done_count (pc_stats st) - done_count (pc_traces st).

End FurtherCode.

Arguments s_se {H E} _.
Arguments s_out {H E} _.
Arguments s_returned {H E} _.
Arguments Build_sampler_state {H E} _ _ _.

(** Stand-ins for the decoders of the services: a body of one byte names
    one service without metadata. *)
Definition demo_decode_services (body : list Byte.byte) : option ServicesMetadata :=
  match body with
  | [b] => Some {[ String (Ascii.ascii_of_byte b) EmptyString := ∅ ]}
  | _ => None
  end.

#[local] Instance demo_services : ServicesDecoders := {|
  json_decode_services := demo_decode_services;
  msgpack_decode_services := demo_decode_services
|}.

(** A sampler engine that keeps the spans it is given and hands back the
    payload unchanged. *)
#[local] Instance demo_engine : SamplerEngine (list Span) := {|
  AddSpan e span := e ++ [span];
  FlushPayload e ap := (ap, [])
|}.

(** * Properties *)

(** ** Machine integers *)

Lemma wrap64_id (z : Z) : in_int64 z -> wrap64 z = z.
Proof.
  unfold in_int64, int64_min, int64_max, wrap64. intros Hz.
  rewrite Z.mod_small; lia.
Qed.

Lemma wrap64_in_int64 (z : Z) : in_int64 (wrap64 z).
Proof.
  unfold in_int64, int64_min, int64_max, wrap64.
  pose proof (Z.mod_pos_bound (z + 2 ^ 63) (2 ^ 64) ltac:(lia)). lia.
Qed.

Lemma sub64_exact (a b : Z) : in_int64 (a - b) -> sub64 a b = a - b.
Proof. apply wrap64_id. Qed.

Lemma End_in_int64 (s : Span) : in_int64 (End s).
Proof. apply wrap64_in_int64. Qed.

(** Aligning down never leaves the range: the result lies between 0 and
    the time, and it is the divisor times the truncated quotient. *)
Lemma align_down (e b : Z) :
  in_int64 e -> b <> 0 -> sub64 e (rem64 e b) = b * (e ÷ b).
Proof.
  intros He Hb. unfold rem64.
  pose proof (Z.quot_rem' e b) as Hqr.
  assert (in_int64 (b * (e ÷ b))) as Hin.
  { unfold in_int64, int64_min, int64_max in *.
    destruct (Z.le_ge_cases 0 e) as [Hpos | Hneg].
    - pose proof (Z.mul_quot_le e b Hpos Hb). lia.
    - pose proof (Z.mul_quot_ge e b Hneg Hb). lia. }
  rewrite sub64_exact; replace (e - Z.rem e b) with (b * (e ÷ b)) by lia; done.
Qed.

(** ** The Concentrator *)

Section ConcentratorProperties.
Context `{Packages}.
Implicit Types (c : Concentrator) (t : processedTrace) (s : Span).
Implicit Types (m : gmap Z StatsBucket) (e : Z * StatsBucket).

Lemma foldl_flush_bucket now bs (l : list (Z * StatsBucket)) sb m :
  foldl (flush_bucket now bs) (sb, m) l =
  (sb ++ (filter (complete now bs) l).*2,
   foldl (fun m e => delete e.1 m) m (filter (complete now bs) l)).
Proof.
  revert sb m. induction l as [|[ts b] l IH]; intros sb m; simpl.
  - by rewrite app_nil_r.
  - rewrite filter_cons.
    destruct (decide (complete now bs (ts, b))) as [Hc | Hc];
      unfold complete in Hc; simpl in Hc;
      destruct (Z.gtb_spec ts (sub64 now bs)) as [Hgt | Hle]; try lia.
    + rewrite IH. simpl. by rewrite <- app_assoc.
    + apply IH.
Qed.

Lemma lookup_foldl_delete (l : list (Z * StatsBucket)) m k :
  foldl (fun m e => delete e.1 m) m l !! k =
  if decide (k ∈ l.*1) then None else m !! k.
Proof.
  revert m. induction l as [|[ts b] l IH]; intros m.
  - case_decide as Hin; [by apply elem_of_nil in Hin | done].
  - cbn [foldl fmap list_fmap fst]. rewrite IH.
    destruct (decide (k = ts)) as [-> | Hne].
    + rewrite lookup_delete_eq.
      rewrite (decide_True (P := ts ∈ ts :: l.*1)) by apply list_elem_of_here.
      by destruct (decide (ts ∈ l.*1)).
    + rewrite lookup_delete_ne by done.
      destruct (decide (k ∈ l.*1)) as [Hin | Hin];
        destruct (decide (k ∈ ts :: l.*1)) as [Hin' | Hin']; try done.
      * exfalso. apply Hin'. by apply list_elem_of_further.
      * exfalso. apply elem_of_cons in Hin' as [? | ?]; done.
Qed.

Lemma Flush_unfold c now :
  Flush c now =
  ((filter (complete now (bsize c)) (range_order (buckets c))).*2,
   set_buckets c (foldl (fun m e => delete e.1 m) (buckets c)
                    (filter (complete now (bsize c)) (range_order (buckets c))))).
Proof. unfold Flush. by rewrite foldl_flush_bucket. Qed.

Lemma elem_of_range_order (m : gmap Z StatsBucket) ts b :
  (ts, b) ∈ range_order m <-> m !! ts = Some b.
Proof. rewrite (range_order_perm _ m). apply elem_of_map_to_list. Qed.

Lemma Flush_lookup c now ts :
  buckets (Flush c now).2 !! ts =
  if decide (ts <= sub64 now (bsize c)) then None else buckets c !! ts.
Proof.
  rewrite Flush_unfold. simpl. rewrite lookup_foldl_delete.
  destruct (decide (ts <= sub64 now (bsize c))) as [Hle | Hgt].
  - case_decide as Hin; [done |].
    destruct (buckets c !! ts) as [b|] eqn:Hb; [| done].
    exfalso. apply Hin. apply list_elem_of_fmap. exists (ts, b). split; [done |].
    apply list_elem_of_filter. split; [done | by apply elem_of_range_order].
  - rewrite decide_False; [done |].
    intros ([ts' b] & -> & [Hc _]%list_elem_of_filter)%list_elem_of_fmap.
    by apply Hgt.
Qed.

(** C1.  [Flush] at time [now] returns exactly the stored buckets whose
    start is at most [now - bsize]: the result is, up to order, the list
    of the buckets of the complete entries; those entries are removed from
    the map; every other entry, a bucket that is still open, stays stored
    as it was and is no entry of the result.  The subtraction is the
    code's, on [int64]; it is the exact difference whenever that fits. *)
Theorem Flush_returns_complete_buckets c now :
  (Flush c now).1 ≡ₚ (filter (complete now (bsize c)) (map_to_list (buckets c))).*2
  /\ (forall b, b ∈ (Flush c now).1 <->
        exists ts, buckets c !! ts = Some b /\ ts <= sub64 now (bsize c))
  /\ (forall ts, ts <= sub64 now (bsize c) -> buckets (Flush c now).2 !! ts = None)
  /\ (forall ts, sub64 now (bsize c) < ts ->
        buckets (Flush c now).2 !! ts = buckets c !! ts
        /\ (forall b, (ts, b) ∉ filter (complete now (bsize c)) (map_to_list (buckets c))))
  /\ bsize (Flush c now).2 = bsize c
  /\ aggregators (Flush c now).2 = aggregators c
  /\ (in_int64 (now - bsize c) -> sub64 now (bsize c) = now - bsize c).
Proof.
  split_and!; [| | | | | | apply sub64_exact].
  - rewrite Flush_unfold. simpl. by rewrite (range_order_perm _ (buckets c)).
  - intros b. rewrite Flush_unfold. simpl. rewrite list_elem_of_fmap. split.
    + intros ([ts b'] & -> & [Hc Hin]%list_elem_of_filter).
      exists ts. split; [by apply elem_of_range_order | done].
    + intros (ts & Hb & Hle). exists (ts, b). split; [done |].
      apply list_elem_of_filter. split; [done | by apply elem_of_range_order].
  - intros ts Hle. rewrite Flush_lookup. by rewrite decide_True.
  - intros ts Hgt. split.
    + rewrite Flush_lookup. rewrite decide_False; [done | lia].
    + intros b [Hc _]%list_elem_of_filter. unfold complete in Hc. simpl in Hc. lia.
  - by rewrite Flush_unfold.
  - by rewrite Flush_unfold.
Qed.

Lemma btime_exact c s :
  bsize c <> 0 ->
  btime c s = End s - Z.rem (End s) (bsize c) /\
  btime c s = bsize c * (End s ÷ bsize c).
Proof.
  intros Hb. unfold btime.
  pose proof (align_down (End s) (bsize c) (End_in_int64 s) Hb) as Ha.
  split; [| done]. rewrite Ha. unfold rem64.
  pose proof (Z.quot_rem' (End s) (bsize c)). lia.
Qed.

Lemma add_span_Ok t c s :
  bsize c <> 0 ->
  add_span t c s =
  Ok (set_buckets c
        (<[btime c s :=
             record_span t (aggregators c)
               (default (NewStatsBucket (btime c s) (bsize c))
                        (buckets c !! btime c s)) s]> (buckets c))).
Proof.
  intros Hb. unfold add_span, record_span.
  destruct (Z.eqb_spec (bsize c) 0) as [? | _]; [done |].
  destruct (buckets c !! btime c s) as [b|] eqn:Hl; simpl.
  - by destruct (handles_sublayers t s).
  - rewrite insert_insert_eq. by destruct (handles_sublayers t s).
Qed.

Lemma add_span_Panic t c s : bsize c = 0 -> add_span t c s = Panic "integer divide by zero".
Proof. intros Hb. unfold add_span. by rewrite Hb. Qed.

Lemma recorded_ext t c1 c2 k ss o :
  bsize c1 = bsize c2 -> aggregators c1 = aggregators c2 ->
  recorded t c1 k ss o = recorded t c2 k ss o.
Proof.
  intros Hb Ha. unfold recorded, btime. by rewrite Hb, Ha.
Qed.

Lemma recorded_cons t c k s ss o :
  recorded t c k (s :: ss) o =
  recorded t c k ss
    (if decide (btime c s = k)
     then Some (record_span t (aggregators c)
                  (default (NewStatsBucket k (bsize c)) o) s)
     else o).
Proof. done. Qed.

Lemma for_each_add_span t (ss : list Span) c c' :
  for_each (add_span t) ss c = Ok c' ->
  bsize c' = bsize c /\ aggregators c' = aggregators c /\
  forall k, buckets c' !! k = recorded t c k ss (buckets c !! k).
Proof.
  revert c. induction ss as [|s ss IH]; intros c Hrun; simpl in Hrun.
  - by inversion Hrun.
  - destruct (decide (bsize c = 0)) as [Hz | Hnz].
    { by rewrite (add_span_Panic _ _ _ Hz) in Hrun. }
    rewrite (add_span_Ok _ _ _ Hnz) in Hrun. simpl in Hrun.
    apply IH in Hrun as (Hb & Ha & Hk). simpl in Hb, Ha.
    split_and!; [done | done |].
    intros k. rewrite Hk. rewrite (recorded_ext t _ c) by done.
    rewrite recorded_cons. simpl. f_equal.
    destruct (decide (btime c s = k)) as [<- | Hne].
    + by rewrite lookup_insert_eq.
    + by rewrite lookup_insert_ne.
Qed.

Lemma for_each_add_span_total t (ss : list Span) c :
  bsize c <> 0 -> exists c', for_each (add_span t) ss c = Ok c'.
Proof.
  revert c. induction ss as [|s ss IH]; intros c Hnz; simpl.
  - by eexists.
  - rewrite (add_span_Ok _ _ _ Hnz). simpl. by apply IH.
Qed.

Lemma recorded_is_Some t c k ss o :
  is_Some (recorded t c k ss o) ->
  is_Some o \/ exists s, s ∈ ss /\ btime c s = k.
Proof.
  revert o. induction ss as [|s ss IH]; intros o; simpl; [by left |].
  intros [Ho | (s' & Hin & Hk)]%IH.
  - case_decide as Hk; [| by left].
    right. exists s. split; [left | done].
  - right. exists s'. split; [by right | done].
Qed.

Lemma recorded_hit t c s ss o :
  s ∈ ss -> is_Some (recorded t c (btime c s) ss o).
Proof.
  revert o. induction ss as [|s' ss IH]; intros o Hin; [by inversion Hin |].
  simpl. apply elem_of_cons in Hin as [<- | Hin]; [| by apply IH].
  rewrite decide_True by done.
  clear IH. generalize (record_span t (aggregators c)
     (default (NewStatsBucket (btime c s) (bsize c)) o) s).
  induction ss as [|s' ss IH]; intros b; simpl; [by eexists |].
  case_decide; apply IH.
Qed.

Lemma recorded_miss t c k ss o :
  (forall s, s ∈ ss -> btime c s <> k) -> recorded t c k ss o = o.
Proof.
  revert o. induction ss as [|s ss IH]; intros o Hk; simpl; [done |].
  rewrite decide_False by (apply Hk; left).
  apply IH. intros s' Hin. apply Hk. by right.
Qed.

(** C2.  [Add] records every span [s] of the trace in the bucket keyed
    [s.End() - s.End() % bsize] (Go's [%]) and in no other: the entry under
    a key is changed by the spans whose bucket starts there, in order, and
    by nothing else ([recorded]); an entry no span falls in is left as it
    was.  Every such key is a multiple of the bucket size, so the keys of
    the map are multiples of it after [Add] if they were before; [Flush]
    keeps that too, and the map of a new concentrator is empty.  With a
    bucket size of zero the remainder panics; with any other size, [Add]
    returns. *)
Theorem Add_records_in_aligned_bucket c t :
  keys_aligned c ->
  (bsize c <> 0 -> exists c', Add c t = Ok c')
  /\ (forall c', Add c t = Ok c' ->
        bsize c' = bsize c
        /\ (forall k, buckets c' !! k = recorded t c k (pt_Trace t) (buckets c !! k))
        /\ (forall s, s ∈ pt_Trace t ->
              btime c s = End s - Z.rem (End s) (bsize c)
              /\ (bsize c | btime c s)
              /\ is_Some (buckets c' !! btime c s))
        /\ (forall k, (forall s, s ∈ pt_Trace t -> btime c s <> k) ->
              buckets c' !! k = buckets c !! k)
        /\ keys_aligned c')
  /\ (forall now, keys_aligned (Flush c now).2)
  /\ (forall aggs bs, keys_aligned (NewConcentrator aggs bs)).
Proof.
  intros Hal. split_and!.
  - intros Hnz. by apply for_each_add_span_total.
  - intros c' Hadd. unfold Add in Hadd.
    destruct (pt_Trace t) as [|s0 ss] eqn:Ht.
    { simpl in Hadd. inversion Hadd; subst c'.
      split_and!; try done. intros s Hs. by inversion Hs. }
    assert (bsize c <> 0) as Hnz.
    { intros Hz. simpl in Hadd. by rewrite (add_span_Panic _ _ _ Hz) in Hadd. }
    apply for_each_add_span in Hadd as (Hb & Ha & Hk).
    assert (forall s, (bsize c | btime c s)) as Hdiv.
    { intros s. destruct (btime_exact c s Hnz) as [_ ->].
      exists (End s ÷ bsize c). lia. }
    split_and!; [done | done | | |].
    + intros s Hs. split_and!; [by apply btime_exact | done |].
      rewrite Hk. by apply recorded_hit.
    + intros k Hmiss. rewrite Hk. by apply recorded_miss.
    + intros k Hsome. rewrite Hb. rewrite Hk in Hsome.
      apply recorded_is_Some in Hsome as [Ho | (s & _ & <-)]; [by apply Hal | done].
  - intros now ts Hsome.
    rewrite Flush_lookup in Hsome. rewrite Flush_unfold. simpl.
    apply Hal. case_decide; [by destruct Hsome | done].
  - intros aggs bs ts [b Hb]. simpl in Hb. by rewrite lookup_empty in Hb.
Qed.

End ConcentratorProperties.

(** ** Slices: removing by swap and truncation *)

Section SwapRemove.
Context {A : Type}.
Implicit Types (l : list A) (D : list nat).

Lemma desc_below_weaken n n' D : (n <= n')%nat -> desc_below n D -> desc_below n' D.
Proof. destruct D as [|i D]; simpl; [done |]. intros ? [? ?]. split; [lia | done]. Qed.

Lemma desc_below_lt n D i : desc_below n D -> i ∈ D -> (i < n)%nat.
Proof.
  revert n. induction D as [|j D IH]; intros n Hd Hin; [by inversion Hin |].
  destruct Hd as [Hj Hd]. apply elem_of_cons in Hin as [-> | Hin]; [done |].
  specialize (IH j Hd Hin). lia.
Qed.

Lemma desc_below_snoc n D i :
  desc_below n D -> (i < n)%nat -> Forall (fun j => (i < j)%nat) D ->
  desc_below n (D ++ [i]).
Proof.
  revert n. induction D as [|j D IH]; intros n Hd Hi Hall; simpl; [done |].
  destruct Hd as [Hj Hd]. apply Forall_cons in Hall as [Hij Hall].
  split; [done |]. by apply IH.
Qed.

Lemma take_snoc_last l last :
  l !! (length l - 1)%nat = Some last -> l = take (length l - 1) l ++ [last].
Proof.
  intros Hlast. rewrite <- (take_drop (length l - 1) l) at 1. f_equal.
  apply list_eq. intros [|i]; simpl.
  - rewrite lookup_drop. by rewrite Nat.add_0_r.
  - rewrite lookup_drop. apply lookup_ge_None. lia.
Qed.

(** [t[idx] = t[len(t)-1]; t = t[:len(t)-1]] takes the element at [idx]
    out of the slice and nothing else. *)
Lemma swap_truncate_perm l idx x last :
  l !! idx = Some x -> l !! (length l - 1)%nat = Some last ->
  take (length l - 1) (<[idx := last]> l) ++ [x] ≡ₚ l.
Proof.
  intros Hx Hlast.
  assert (idx < length l)%nat as Hlt by (by eapply lookup_lt_Some).
  pose proof (take_snoc_last l last Hlast) as Hl.
  destruct (decide (idx = length l - 1)%nat) as [-> | Hne].
  - rewrite list_insert_id by done.
    assert (x = last) as -> by congruence.
    by rewrite <- Hl.
  - rewrite take_insert_lt by lia.
    assert (take (length l - 1) l !! idx = Some x) as Hx'.
    { rewrite lookup_take_lt by lia. done. }
    apply list_elem_of_split_length in Hx' as (l1 & l2 & Htake & Hidx).
    rewrite Hl at 3. rewrite Htake. subst idx.
    rewrite insert_app_r_alt by lia. rewrite Nat.sub_diag. simpl.
    rewrite <- !app_assoc. simpl. f_equiv.
    rewrite (Permutation_app_comm l2 [x]), (Permutation_app_comm l2 [last]).
    simpl. apply perm_swap.
Qed.

Lemma pick_ext D l l' :
  (forall i, i ∈ D -> l !! i = l' !! i) -> pick D l = pick D l'.
Proof.
  induction D as [|i D IH]; intros Hext; [done |].
  assert (pick D l = pick D l') as IH'.
  { apply IH. intros j Hj. apply Hext. by right. }
  unfold pick in *. simpl. rewrite (Hext i) by left.
  destruct (l' !! i); [f_equal |]; exact IH'.
Qed.

End SwapRemove.

(** ** The receiver *)

Section ReceiverProperties.
Context `{Packages}.
Implicit Types (t : Trace) (s : Span) (st : loop_state).

(** *** The swap-and-truncate loop *)

Lemma remove_from_Ok (D : list nat) t :
  desc_below (length t) D ->
  exists t', remove_from D t = Ok t'
    /\ t ≡ₚ t' ++ pick D t
    /\ length t = (length t' + length D)%nat.
Proof.
  revert t. induction D as [|idx D IH]; intros t Hd.
  - exists t. simpl. split_and!; [done | by rewrite app_nil_r | lia].
  - destruct Hd as [Hidx Hd]. cbn [remove_from].
    destruct (Z.gtb_spec (Z.of_nat idx) (Z.of_nat (length t) - 1)) as [? | _]; [lia |].
    destruct (lookup_lt_is_Some_2 t (length t - 1)) as [last Hlast]; [lia |].
    destruct (lookup_lt_is_Some_2 t idx Hidx) as [x Hx].
    set (t1 := take (length t - 1) (<[idx := last]> t)).
    assert (length t1 = length t - 1)%nat as Hlen1.
    { unfold t1. rewrite length_take, length_insert. lia. }
    destruct (IH t1) as (t' & Hrun & Hperm & Hlen).
    { eapply desc_below_weaken; [| exact Hd]. lia. }
    exists t'. rewrite Hlast. fold t1. split_and!; [done | | simpl; lia].
    rewrite <- (swap_truncate_perm t idx x last Hx Hlast) at 1. fold t1.
    rewrite Hperm at 1.
    rewrite (pick_ext D t1 t).
    + unfold pick at 2. simpl. rewrite Hx. fold (pick D t).
      rewrite <- app_assoc. f_equiv. symmetry. apply Permutation_cons_append.
    + intros j Hj. pose proof (desc_below_lt _ _ _ Hd Hj) as Hlt.
      unfold t1. rewrite lookup_take_lt by lia.
      by rewrite list_lookup_insert_ne by lia.
Qed.

(** *** The normalization loop *)

Lemma normalize_from_scan (l pre : list Span) (id : Z) (R : list nat) :
  normalize_from (length l) (length pre) id (pre ++ l) R =
  match scan (length pre) id l with
  | None => Mismatch
  | Some (l', R') => Scanned (pre ++ l') (R ++ R')
  end.
Proof.
  revert pre id R. induction l as [|s l IH]; intros pre id R; simpl.
  - by rewrite !app_nil_r.
  - rewrite list_lookup_middle by done.
    destruct (negb (length pre =? 0)%nat && negb (TraceID s =? id)); [done |].
    assert (forall s' R0,
      normalize_from (length l) (S (length pre)) (TraceID s)
        (<[length pre := s']> (pre ++ s :: l)) R0 =
      match scan (S (length pre)) (TraceID s) l with
      | None => Mismatch
      | Some (l', R') => Scanned (pre ++ s' :: l') (R0 ++ R')
      end) as Hstep.
    { intros s' R0.
      rewrite insert_app_r_alt by lia. rewrite Nat.sub_diag. simpl.
      replace (pre ++ s' :: l) with ((pre ++ [s']) ++ l) by (by rewrite <- app_assoc).
      replace (S (length pre)) with (length (pre ++ [s']))
        by (rewrite length_app; simpl; lia).
      rewrite IH.
      destruct (scan (length (pre ++ [s'])) (TraceID s) l) as [[l'' R'']|]; [| done].
      by rewrite <- !app_assoc. }
    destruct (decide (fails s)) as [Hf | Hf]; unfold fails in Hf;
      unfold normalized; destruct (Normalize s) as [s' [e|]]; simpl in Hf |- *;
      try (by destruct Hf); try (by exfalso; apply Hf; eexists);
      rewrite Hstep;
      destruct (scan (S (length pre)) (TraceID s) l) as [[l'' R'']|]; try done.
    by rewrite <- app_assoc.
Qed.

Lemma scan_S i id l :
  scan (S i) id l =
  if decide (Forall (fun s => TraceID s = id) l)
  then Some (normalized <$> l, fail_indices (S i) l)
  else None.
Proof.
  revert i id. induction l as [|s l IH]; intros i id; cbn [scan].
  - by rewrite decide_True by constructor.
  - destruct (Z.eqb_spec (TraceID s) id) as [Heq | Hne]; cbn [negb andb Nat.eqb].
    + rewrite IH. subst id.
      destruct (decide (Forall (fun s' => TraceID s' = TraceID s) l)) as [Hall | Hnall];
        destruct (decide (Forall (fun s' => TraceID s' = TraceID s) (s :: l)))
          as [Hc | Hc]; try done.
      * exfalso. apply Hc. by constructor.
      * exfalso. apply Hnall. by apply Forall_cons in Hc as [_ ?].
    + destruct (decide (Forall (fun s' => TraceID s' = id) (s :: l))) as [Hc | Hc];
        [| done].
      exfalso. by apply Forall_cons in Hc as [? _].
Qed.

Lemma same_trace_id_cons s l :
  same_trace_id (s :: l) <-> Forall (fun s' => TraceID s' = TraceID s) l.
Proof.
  rewrite Forall_forall. unfold same_trace_id. split.
  - intros Hsame s' Hin. apply Hsame; [by right | left].
  - intros Hall s1 s2 [-> | H1]%elem_of_cons [-> | H2]%elem_of_cons.
    + done.
    + symmetry. by apply Hall.
    + by apply Hall.
    + rewrite (Hall _ H1). symmetry. by apply Hall.
Qed.

Lemma normalize_from_spec t :
  normalize_from (length t) 0 0 t [] =
  if decide (same_trace_id t)
  then Scanned (normalized <$> t) (fail_indices 0 t)
  else Mismatch.
Proof.
  pose proof (normalize_from_scan t [] 0 []) as Hs.
  cbn [app length] in Hs. rewrite Hs. clear Hs.
  destruct t as [|s l].
  - by destruct (decide (same_trace_id [])) as [? | Hn];
      [| exfalso; apply Hn; intros s1 s2 Hin; inversion Hin].
  - cbn [scan Nat.eqb negb andb]. rewrite scan_S.
    destruct (decide (same_trace_id (s :: l))) as [Hsame | Hnsame];
      destruct (decide (Forall (fun s' => TraceID s' = TraceID s) l)) as [Hall | Hnall].
    + done.
    + exfalso. by apply Hnall, same_trace_id_cons.
    + exfalso. by apply Hnsame, same_trace_id_cons.
    + done.
Qed.

Lemma fail_indices_ge i l : Forall (fun j => (i <= j)%nat) (fail_indices i l).
Proof.
  revert i. induction l as [|s l IH]; intros i; simpl; [constructor |].
  assert (Forall (fun j => (i <= j)%nat) (fail_indices (S i) l)) as Hrest.
  { eapply Forall_impl; [apply IH |]. simpl. lia. }
  case_decide; [constructor; [lia | done] | done].
Qed.

Lemma fail_indices_desc i l :
  desc_below (i + length l) (reverse (fail_indices i l)).
Proof.
  revert i. induction l as [|s l IH]; intros i; simpl; [done |].
  assert (desc_below (i + S (length l)) (reverse (fail_indices (S i) l))) as Hrest.
  { eapply desc_below_weaken; [| apply IH]. lia. }
  case_decide; [| done].
  rewrite reverse_cons. apply desc_below_snoc; [done | lia |].
  apply Forall_reverse. eapply Forall_impl; [apply fail_indices_ge |]. simpl. lia.
Qed.

Lemma length_fail_indices i l : length (fail_indices i l) = length (filter fails l).
Proof.
  revert i. induction l as [|s l IH]; intros i; simpl; [done |].
  rewrite filter_cons. case_decide; simpl; by rewrite IH.
Qed.

Lemma pick_fail_indices (pre l : list Span) :
  pick (fail_indices (length pre) l) (pre ++ (normalized <$> l)) = failed l.
Proof.
  revert pre. induction l as [|s l IH]; intros pre; [done |].
  assert (pick (fail_indices (S (length pre)) l) (pre ++ (normalized <$> s :: l))
          = failed l) as Hrest.
  { specialize (IH (pre ++ [normalized s])).
    rewrite length_app in IH. simpl in IH. rewrite Nat.add_1_r in IH.
    rewrite <- app_assoc in IH. exact IH. }
  unfold failed. simpl. rewrite filter_cons. case_decide; [| done].
  unfold pick. simpl. rewrite list_lookup_middle by done. simpl. f_equal. exact Hrest.
Qed.

Lemma kept_failed_perm t : normalized <$> t ≡ₚ kept t ++ failed t.
Proof.
  unfold kept, failed. rewrite <- fmap_app. f_equiv.
  rewrite Permutation_app_comm. symmetry. apply filter_app_complement.
Qed.

Lemma length_filter_all {A} (P : A -> Prop) `{!forall x, Decision (P x)} (l : list A) :
  length (filter P l) = length l <-> Forall P l.
Proof.
  induction l as [|x l IH]; simpl; [by split; [constructor |] |].
  rewrite filter_cons. pose proof (length_filter P l).
  case_decide as HP; simpl.
  - rewrite Forall_cons. split.
    + intros Hlen. split; [done |]. apply IH. lia.
    + intros [_ Hall]. f_equal. by apply IH.
  - split; [lia |]. by intros [? _]%Forall_cons.
Qed.

(** *** One iteration of the loop over the traces *)

Lemma swap_and_truncate_kept t :
  exists t', swap_and_truncate (fail_indices 0 t) (normalized <$> t) = Ok t'
    /\ t' ≡ₚ kept t
    /\ normalized <$> t ≡ₚ t' ++ failed t
    /\ length t = (length t' + length (fail_indices 0 t))%nat.
Proof.
  destruct (remove_from_Ok (reverse (fail_indices 0 t)) (normalized <$> t))
    as (t' & Hrun & Hperm & Hlen).
  { rewrite length_fmap. apply (fail_indices_desc 0 t). }
  rewrite length_fmap, length_reverse in Hlen.
  assert (normalized <$> t ≡ₚ t' ++ failed t) as Hperm'.
  { rewrite Hperm at 1. f_equiv. unfold pick.
    rewrite reverse_Permutation. apply (reflexive_eq (R := (≡ₚ))).
    apply (pick_fail_indices [] t). }
  exists t'. split_and!; [done | | done | done].
  apply (Permutation_app_inv_r (failed t)).
  rewrite <- Hperm'. apply kept_failed_perm.
Qed.

Lemma handle_trace_mismatch st t :
  ~ same_trace_id t -> handle_trace st t = Ok (drop_whole st t).
Proof.
  intros Hn. unfold handle_trace. rewrite normalize_from_spec.
  by rewrite decide_False.
Qed.

Lemma handle_trace_all_fail st t :
  same_trace_id t -> Forall fails t -> handle_trace st t = Ok (drop_whole st t).
Proof.
  intros Hsame Hall. unfold handle_trace. rewrite normalize_from_spec.
  rewrite decide_True by done.
  rewrite length_fmap, length_fail_indices.
  rewrite (proj2 (length_filter_all fails t) Hall).
  by rewrite Nat.eqb_refl.
Qed.

Lemma handle_trace_forward t :
  same_trace_id t -> ~ Forall fails t ->
  exists t', t' <> [] /\ t' ≡ₚ kept t /\ normalized <$> t ≡ₚ t' ++ failed t
    /\ forall st, handle_trace st t = Ok (forward st t t').
Proof.
  intros Hsame Hnall.
  destruct (swap_and_truncate_kept t) as (t' & Hrun & Hkept & Hperm & Hlen).
  assert (length (fail_indices 0 t) <> length t) as Hne.
  { rewrite length_fail_indices. by rewrite length_filter_all. }
  exists t'. split_and!; [| done | done |].
  - intros ->. simpl in Hlen. lia.
  - intros st. unfold handle_trace. rewrite normalize_from_spec.
    rewrite decide_True by done. rewrite length_fmap.
    destruct (Nat.eqb_spec (length (fail_indices 0 t)) (length t)) as [? | _]; [done |].
    rewrite Hrun. simpl.
    destruct t' as [|s' t'']; [simpl in Hlen; lia |].
    unfold forward. do 2 f_equal. lia.
Qed.

Lemma handle_trace_total st t : exists st', handle_trace st t = Ok st'.
Proof.
  destruct (decide (same_trace_id t)) as [Hsame | Hn].
  - destruct (decide (Forall fails t)) as [Hall | Hnall].
    + eexists. by apply handle_trace_all_fail.
    + destruct (handle_trace_forward t Hsame Hnall) as (t' & _ & _ & _ & Hrun).
      eexists. apply Hrun.
  - eexists. by apply handle_trace_mismatch.
Qed.

Lemma spans_in_app ts1 ts2 : spans_in (ts1 ++ ts2) = spans_in ts1 + spans_in ts2.
Proof. induction ts1 as [|t ts1 IH]; simpl; [done |]. rewrite IH. lia. Qed.

Lemma handle_trace_account st t st' :
  handle_trace st t = Ok st' ->
  exists sent, chan st' = chan st ++ sent
    /\ stotal st' - stotal st = spans_in sent + (sdropped st' - sdropped st)
    /\ 0 <= sdropped st' - sdropped st.
Proof.
  intros Hrun.
  assert (st' = drop_whole st t \/ exists t', st' = forward st t t'
          /\ (length t' <= length t)%nat) as [-> | (t' & -> & Hlen)].
  { destruct (decide (same_trace_id t)) as [Hsame | Hn].
    - destruct (decide (Forall fails t)) as [Hall | Hnall].
      + rewrite handle_trace_all_fail in Hrun by done. left. congruence.
      + destruct (handle_trace_forward t Hsame Hnall) as (t' & _ & Hk & _ & Hrun').
        rewrite Hrun' in Hrun. right. exists t'. split; [congruence |].
        rewrite Hk. unfold kept. rewrite length_fmap. apply length_filter.
    - rewrite handle_trace_mismatch in Hrun by done. left. congruence. }
  - exists []. simpl. rewrite app_nil_r. split_and!; [done | lia | lia].
  - exists [t']. simpl. split_and!; [done | lia | lia].
Qed.

(** *** The whole loop *)

Lemma for_each_app {S A : Type} (body : S -> A -> result S) (xs ys : list A) (st : S) :
  for_each body (xs ++ ys) st = (st' ← for_each body xs st; for_each body ys st').
Proof.
  revert st. induction xs as [|x xs IH]; intros st; simpl; [done |].
  destruct (body st x) as [st1 | msg]; simpl; [apply IH | done].
Qed.

Lemma for_each_handle_trace_total (ts : list Trace) st :
  exists st', for_each handle_trace ts st = Ok st'.
Proof.
  revert st. induction ts as [|t ts IH]; intros st; simpl; [by eexists |].
  destruct (handle_trace_total st t) as [st1 ->]. simpl. apply IH.
Qed.

Lemma for_each_handle_trace_account (ts : list Trace) st st' :
  for_each handle_trace ts st = Ok st' ->
  exists sent, chan st' = chan st ++ sent
    /\ stotal st' - stotal st = spans_in sent + (sdropped st' - sdropped st)
    /\ 0 <= sdropped st' - sdropped st.
Proof.
  revert st. induction ts as [|t ts IH]; intros st Hrun; simpl in Hrun.
  - inversion Hrun; subst st'. exists []. simpl. rewrite app_nil_r.
    split_and!; [done | lia | lia].
  - destruct (handle_trace st t) as [st1 | msg] eqn:Hstep; [| done]. simpl in Hrun.
    apply handle_trace_account in Hstep as (sent1 & Hc1 & Hs1 & Hd1).
    apply IH in Hrun as (sent2 & Hc2 & Hs2 & Hd2).
    exists (sent1 ++ sent2). rewrite Hc2, Hc1, spans_in_app, <- app_assoc.
    split_and!; [done | lia | lia].
Qed.

Lemma handle_trace_bump a b d st t st' :
  handle_trace st t = Ok st' ->
  handle_trace (bump a b d st) t = Ok (bump a b d st').
Proof.
  intros Hrun. destruct (decide (same_trace_id t)) as [Hsame | Hn].
  - destruct (decide (Forall fails t)) as [Hall | Hnall].
    + rewrite handle_trace_all_fail in Hrun |- * by done.
      inversion Hrun; subst st'. unfold drop_whole, bump. simpl. do 2 f_equal; lia.
    + destruct (handle_trace_forward t Hsame Hnall) as (t' & _ & _ & _ & Hrun').
      rewrite Hrun' in Hrun |- *.
      inversion Hrun; subst st'. unfold forward, bump. simpl. do 2 f_equal; lia.
  - rewrite handle_trace_mismatch in Hrun |- * by done.
    inversion Hrun; subst st'. unfold drop_whole, bump. simpl. do 2 f_equal; lia.
Qed.

Lemma for_each_handle_trace_bump a b d (ts : list Trace) st st' :
  for_each handle_trace ts st = Ok st' ->
  for_each handle_trace ts (bump a b d st) = Ok (bump a b d st').
Proof.
  revert st. induction ts as [|t ts IH]; intros st Hrun; simpl in Hrun |- *.
  - by inversion Hrun.
  - destruct (handle_trace st t) as [st1 | msg] eqn:Hstep; [| done]. simpl in Hrun.
    rewrite (handle_trace_bump a b d _ _ _ Hstep). simpl. by apply IH.
Qed.

Lemma drop_whole_bump st t :
  drop_whole st t = bump (Z.of_nat (length t)) (Z.of_nat (length t)) 1 st.
Proof. done. Qed.

(** A trace that is dropped whole leaves the loop as it would be without
    the trace, but for the counters. *)
Lemma for_each_drop_whole (pre post : list Trace) t st st' :
  (forall st1, handle_trace st1 t = Ok (drop_whole st1 t)) ->
  for_each handle_trace (pre ++ post) st = Ok st' ->
  for_each handle_trace (pre ++ t :: post) st = Ok (drop_whole st' t).
Proof.
  intros Hdrop. rewrite !for_each_app. simpl.
  destruct (for_each handle_trace pre st) as [st1 | msg]; [| done]. simpl.
  rewrite Hdrop. simpl. rewrite !drop_whole_bump.
  apply for_each_handle_trace_bump.
Qed.

(** An iteration does the same to every state of the loop: it appends
    the same traces to the channel and adds the same amounts to the
    counters. *)
Lemma handle_trace_rebase st t st' :
  handle_trace st t = Ok st' ->
  exists sent, chan st' = chan st ++ sent
    /\ forall sb, handle_trace sb t =
         Ok {| chan := chan sb ++ sent;
               stotal := stotal sb + (stotal st' - stotal st);
               sdropped := sdropped sb + (sdropped st' - sdropped st);
               ttotal := ttotal sb + (ttotal st' - ttotal st);
               tdropped := tdropped sb + (tdropped st' - tdropped st) |}.
Proof.
  intros Hrun. destruct (decide (same_trace_id t)) as [Hsame | Hn].
  - destruct (decide (Forall fails t)) as [Hall | Hnall].
    + rewrite handle_trace_all_fail in Hrun by done. injection Hrun as <-.
      exists []. split; [by rewrite app_nil_r |]. intros sb.
      rewrite handle_trace_all_fail by done. unfold drop_whole. simpl.
      rewrite app_nil_r. do 2 f_equal; lia.
    + destruct (handle_trace_forward t Hsame Hnall) as (t' & _ & _ & _ & Hrun').
      rewrite Hrun' in Hrun. injection Hrun as <-.
      exists [t']. split; [done |]. intros sb.
      rewrite Hrun'. unfold forward. simpl. do 2 f_equal; lia.
  - rewrite handle_trace_mismatch in Hrun by done. injection Hrun as <-.
    exists []. split; [by rewrite app_nil_r |]. intros sb.
    rewrite handle_trace_mismatch by done. unfold drop_whole. simpl.
    rewrite app_nil_r. do 2 f_equal; lia.
Qed.

Lemma for_each_handle_trace_rebase (ts : list Trace) st st' :
  for_each handle_trace ts st = Ok st' ->
  exists sent, chan st' = chan st ++ sent
    /\ forall sb, for_each handle_trace ts sb =
         Ok {| chan := chan sb ++ sent;
               stotal := stotal sb + (stotal st' - stotal st);
               sdropped := sdropped sb + (sdropped st' - sdropped st);
               ttotal := ttotal sb + (ttotal st' - ttotal st);
               tdropped := tdropped sb + (tdropped st' - tdropped st) |}.
Proof.
  revert st. induction ts as [|t ts IH]; intros st Hrun; simpl in Hrun.
  - injection Hrun as <-. exists []. split; [by rewrite app_nil_r |].
    intros [c0 a0 b0 c1 d0]. simpl. rewrite app_nil_r. do 2 f_equal; lia.
  - destruct (handle_trace st t) as [st1 | msg] eqn:Hstep; [| done]. simpl in Hrun.
    apply handle_trace_rebase in Hstep as (sent1 & Hc1 & Hall1).
    apply IH in Hrun as (sent2 & Hc2 & Hall2).
    exists (sent1 ++ sent2). split; [by rewrite Hc2, Hc1, <- app_assoc |].
    intros sb. simpl. rewrite Hall1. simpl. rewrite Hall2. simpl.
    rewrite <- app_assoc. do 2 f_equal; lia.
Qed.

(** A trace of which the loop forwards [t'], whatever the state: in the
    loop over the decoded traces, [t'] is sent between what the traces
    before it and the traces after it send, and the counters are those of
    the loop without the trace (state [st2]) plus its own. *)
Lemma for_each_forward (pre post : list Trace) t (t' : Trace) st st1 st2 :
  (forall sb, handle_trace sb t = Ok (forward sb t t')) ->
  for_each handle_trace pre st = Ok st1 ->
  for_each handle_trace post st1 = Ok st2 ->
  exists sent_post, chan st2 = chan st1 ++ sent_post
    /\ for_each handle_trace (pre ++ t :: post) st =
       Ok {| chan := chan st1 ++ [t'] ++ sent_post;
             stotal := stotal st2 + Z.of_nat (length t);
             sdropped := sdropped st2 + (Z.of_nat (length t) - Z.of_nat (length t'));
             ttotal := ttotal st2 + 1;
             tdropped := tdropped st2 |}.
Proof.
  intros Hfw Hpre Hpost.
  apply for_each_handle_trace_rebase in Hpost as (sent_post & Hc & Hall).
  exists sent_post. split; [done |].
  rewrite for_each_app, Hpre. simpl. rewrite Hfw. simpl. rewrite Hall.
  unfold forward. simpl. rewrite <- app_assoc. do 2 f_equal; lia.
Qed.

(** *** The handler *)

Lemma handleTraces_decoded v l w r body w' (ts : list Trace) :
  Body r = Some (ReadOk body) ->
  decode_switch v w (ContentType r) body = Decoded w' ts ->
  handleTraces v l w r =
  (st ← for_each handle_trace ts (loop_start l); Ok (log_stats l st, HTTPOK w')).
Proof. intros Hb Hd. unfold handleTraces. by rewrite Hb, Hd. Qed.

Lemma handleTraces_total v l w r :
  exists l' w', handleTraces v l w r = Ok (l', w').
Proof.
  unfold handleTraces. destruct (Body r) as [[body |] |]; [| by eauto | by eauto].
  destruct (decode_switch v w (ContentType r) body) as [w' | w' ts]; [by eauto |].
  destruct (for_each_handle_trace_total ts (loop_start l)) as [st ->]. simpl. by eauto.
Qed.

Lemma HTTPOK_fresh w :
  wroteHeader w = None -> written w = "" ->
  HTTPOK w = {| wroteHeader := Some 200; written := "OK" ++ nl |}.
Proof.
  intros Hh Hw. unfold HTTPOK, Write, WriteHeader. rewrite Hh. simpl. by rewrite Hw.
Qed.

Lemma HTTPErrorAndLog_fresh w code err :
  wroteHeader w = None -> written w = "" ->
  HTTPErrorAndLog w code err = {| wroteHeader := Some code; written := err ++ nl |}.
Proof.
  intros Hh Hw. unfold HTTPErrorAndLog, http_Error, Write, WriteHeader.
  rewrite Hh. simpl. by rewrite Hw.
Qed.

Lemma wroteHeader_HTTPOK w : wroteHeader w = None -> wroteHeader (HTTPOK w) = Some 200.
Proof. intros Hh. unfold HTTPOK, Write, WriteHeader. by rewrite Hh. Qed.

Lemma wroteHeader_HTTPErrorAndLog w code err :
  wroteHeader w = None -> wroteHeader (HTTPErrorAndLog w code err) = Some code.
Proof.
  intros Hh. unfold HTTPErrorAndLog, http_Error, Write, WriteHeader. by rewrite Hh.
Qed.

(** C3.  A request that decodes into traces of which one, [t], holds two
    spans with different trace IDs: the iteration of the loop for [t]
    sends nothing on the channel, adds one to the count of dropped traces
    and the number of spans of [t] to the counts of spans received and
    dropped; the handler answers 200 with the body OK and a newline, and
    leaves the receiver as the other traces of the request leave it
    (state [st]) with these amounts added. *)
Theorem mismatched_trace_dropped v l w r body (pre post : list Trace) t s1 s2 :
  wroteHeader w = None -> written w = "" ->
  Body r = Some (ReadOk body) ->
  decode_switch v w (ContentType r) body = Decoded w (pre ++ t :: post) ->
  s1 ∈ t -> s2 ∈ t -> TraceID s1 <> TraceID s2 ->
  (forall st, handle_trace st t =
      Ok {| chan := chan st;
            stotal := stotal st + Z.of_nat (length t);
            sdropped := sdropped st + Z.of_nat (length t);
            ttotal := ttotal st;
            tdropped := tdropped st + 1 |})
  /\ exists st,
       for_each handle_trace (pre ++ post) (loop_start l) = Ok st
       /\ handleTraces v l w r =
          Ok ({| traces := chan st;
                 stats :=
                   {| Errors := Errors (stats l);
                      SpansReceived :=
                        add64 (SpansReceived (stats l)) (stotal st + Z.of_nat (length t));
                      TracesReceived := add64 (TracesReceived (stats l)) (ttotal st);
                      SpansDropped :=
                        add64 (SpansDropped (stats l)) (sdropped st + Z.of_nat (length t));
                      TracesDropped :=
                        add64 (TracesDropped (stats l)) (tdropped st + 1) |} |},
              {| wroteHeader := Some 200; written := "OK" ++ nl |}).
Proof.
  intros Hh Hw Hb Hd H1 H2 Hne.
  assert (~ same_trace_id t) as Hn by (intros Hsame; by apply Hne, Hsame).
  split; [intros st; by apply handle_trace_mismatch |].
  destruct (for_each_handle_trace_total (pre ++ post) (loop_start l)) as [st Hst].
  exists st. split; [done |].
  rewrite (handleTraces_decoded _ _ _ _ _ _ _ Hb Hd).
  rewrite (for_each_drop_whole pre post t _ st); [| | done].
  - simpl. by rewrite HTTPOK_fresh.
  - intros st1. by apply handle_trace_mismatch.
Qed.

(** C4.  A request that decodes into traces of which one, [t], has spans
    that share one trace ID.  If every span of [t] fails to normalize (an
    empty trace too), the handler sends nothing for it and counts the
    trace and its spans as dropped: the receiver is left as the other
    traces of the request leave it, with one more trace dropped and the
    spans of [t] received and dropped.  Otherwise the handler sends for it
    one trace [t'], between what the traces before and after [t] send; [t']
    holds, as a multiset, exactly the spans that normalized, as
    [Normalize] left them (the normalized trace is [t'] together with the
    failed spans); one more trace is received, and the failed spans are
    the spans of [t] dropped. *)
Theorem same_id_trace_keeps_normalized v l w r body (pre post : list Trace) t :
  wroteHeader w = None -> written w = "" ->
  Body r = Some (ReadOk body) ->
  decode_switch v w (ContentType r) body = Decoded w (pre ++ t :: post) ->
  same_trace_id t ->
  exists st1 st2 sent_pre sent_post,
    for_each handle_trace pre (loop_start l) = Ok st1
    /\ for_each handle_trace post st1 = Ok st2
    /\ chan st1 = traces l ++ sent_pre
    /\ chan st2 = chan st1 ++ sent_post
    /\ (Forall fails t ->
        handleTraces v l w r =
        Ok ({| traces := traces l ++ sent_pre ++ sent_post;
               stats :=
                 {| Errors := Errors (stats l);
                    SpansReceived :=
                      add64 (SpansReceived (stats l)) (stotal st2 + Z.of_nat (length t));
                    TracesReceived := add64 (TracesReceived (stats l)) (ttotal st2);
                    SpansDropped :=
                      add64 (SpansDropped (stats l)) (sdropped st2 + Z.of_nat (length t));
                    TracesDropped :=
                      add64 (TracesDropped (stats l)) (tdropped st2 + 1) |} |},
            {| wroteHeader := Some 200; written := "OK" ++ nl |}))
    /\ (~ Forall fails t ->
        exists t',
          t' ≡ₚ kept t
          /\ normalized <$> t ≡ₚ t' ++ failed t
          /\ handleTraces v l w r =
             Ok ({| traces := traces l ++ sent_pre ++ [t'] ++ sent_post;
                    stats :=
                      {| Errors := Errors (stats l);
                         SpansReceived :=
                           add64 (SpansReceived (stats l))
                                 (stotal st2 + Z.of_nat (length t));
                         TracesReceived :=
                           add64 (TracesReceived (stats l)) (ttotal st2 + 1);
                         SpansDropped :=
                           add64 (SpansDropped (stats l))
                                 (sdropped st2 + Z.of_nat (length (failed t)));
                         TracesDropped :=
                           add64 (TracesDropped (stats l)) (tdropped st2) |} |},
                 {| wroteHeader := Some 200; written := "OK" ++ nl |})).
Proof.
  intros Hh Hw Hb Hd Hsame.
  destruct (for_each_handle_trace_total pre (loop_start l)) as [st1 Hpre].
  destruct (for_each_handle_trace_total post st1) as [st2 Hpost].
  destruct (for_each_handle_trace_account pre _ _ Hpre) as (sent_pre & Hc1 & _).
  destruct (for_each_handle_trace_account post _ _ Hpost) as (sent_post & Hc2 & _).
  simpl in Hc1.
  exists st1, st2, sent_pre, sent_post. split_and!; [done | done | done | done | |].
  - intros Hall.
    rewrite (handleTraces_decoded _ _ _ _ _ _ _ Hb Hd).
    rewrite (for_each_drop_whole pre post t _ st2).
    + simpl. rewrite HTTPOK_fresh by done. unfold log_stats, drop_whole. simpl.
      rewrite Hc2, Hc1, <- app_assoc. done.
    + intros sb. by apply handle_trace_all_fail.
    + rewrite for_each_app, Hpre. done.
  - intros Hnall.
    destruct (handle_trace_forward t Hsame Hnall) as (t' & _ & Hk & Hp & Hfw).
    exists t'. split_and!; [done | done |].
    rewrite (handleTraces_decoded _ _ _ _ _ _ _ Hb Hd).
    destruct (for_each_forward pre post t t' _ _ _ Hfw Hpre Hpost)
      as (sent_post' & Hc2' & Hrun).
    rewrite Hc2 in Hc2'. apply app_inv_head in Hc2'. subst sent_post'.
    rewrite Hrun. simpl. rewrite HTTPOK_fresh by done.
    apply Permutation_length in Hp. rewrite length_fmap, length_app in Hp.
    unfold log_stats. simpl. rewrite Hc1, <- !app_assoc. simpl.
    replace (Z.of_nat (length t) - Z.of_nat (length t'))
      with (Z.of_nat (length (failed t))) by lia.
    done.
Qed.

(** C5.  The debug panic is never reached.  The indices that the
    normalization loop collects, read from the last to the first, decrease
    strictly and start below the length of the trace ([desc_below]), so
    each one is at most [len(t)-1] when the swap-and-truncate loop comes
    to it; that loop returns, every iteration over a trace returns, and so
    does the handler on every request. *)
Theorem handleTraces_never_panics :
  (forall t,
     match normalize_from (length t) 0 0 t [] with
     | Mismatch => True
     | Scanned t1 toRemove =>
         desc_below (length t1) (reverse toRemove)
         /\ exists t', swap_and_truncate toRemove t1 = Ok t'
     end)
  /\ (forall D t, desc_below (length t) D -> exists t', remove_from D t = Ok t')
  /\ (forall st t, exists st', handle_trace st t = Ok st')
  /\ (forall v l w r, exists l' w', handleTraces v l w r = Ok (l', w')).
Proof.
  split_and!.
  - intros t. rewrite normalize_from_spec. case_decide; [| done].
    split.
    + rewrite length_fmap. apply (fail_indices_desc 0 t).
    + destruct (swap_and_truncate_kept t) as (t' & Hrun & _). by exists t'.
  - intros D t Hd. destruct (remove_from_Ok D t Hd) as (t' & Hrun & _). by exists t'.
  - apply handle_trace_total.
  - apply handleTraces_total.
Qed.

(** C6, as amended.  On the v0.1 and v0.2 endpoints, a request whose body
    was read and whose content type is none of application/json,
    text/json and the empty string is answered with status 415, and the
    receiver is left as it was: no trace is sent on the channel, no
    counter moves. *)
Theorem non_json_rejected_415 v l w r body :
  v = v01 \/ v = v02 ->
  Body r = Some (ReadOk body) ->
  ContentType r <> "application/json" ->
  ContentType r <> "text/json" ->
  ContentType r <> "" ->
  wroteHeader w = None -> written w = "" ->
  handleTraces v l w r =
  Ok (l, {| wroteHeader := Some 415; written := "decoding-error" ++ nl |}).
Proof.
  intros Hv Hb H1 H2 H3 Hh Hw.
  assert (unsupported_media_type (ContentType r) = true) as Hgate.
  { unfold unsupported_media_type.
    apply String.eqb_neq in H1, H2, H3. by rewrite H1, H2, H3. }
  unfold handleTraces. rewrite Hb. unfold decode_switch.
  destruct Hv as [-> | ->]; simpl; rewrite Hgate; by rewrite HTTPErrorAndLog_fresh.
Qed.

(** C7.  On every request the handler returns.  Either it returned before
    the loop and the receiver is as it was, or it added the counters of
    the loop to the statistics: then the amount added to the spans
    received is the number of spans of the traces sent on the channel plus
    the amount added to the spans dropped. *)
Theorem spans_received_kept_dropped v l w r :
  exists l' w',
    handleTraces v l w r = Ok (l', w')
    /\ (l' = l
        \/ exists received dropped sent,
            traces l' = traces l ++ sent
            /\ SpansReceived (stats l') = add64 (SpansReceived (stats l)) received
            /\ SpansDropped (stats l') = add64 (SpansDropped (stats l)) dropped
            /\ received = spans_in sent + dropped
            /\ 0 <= dropped).
Proof.
  unfold handleTraces. destruct (Body r) as [[body |] |]; [| by eauto | by eauto].
  destruct (decode_switch v w (ContentType r) body) as [w' | w' ts]; [by eauto |].
  destruct (for_each_handle_trace_total ts (loop_start l)) as [st Hst].
  rewrite Hst. simpl. do 2 eexists. split; [done |]. right.
  apply for_each_handle_trace_account in Hst as (sent & Hc & Hs & Hd).
  simpl in Hc, Hs, Hd.
  exists (stotal st), (sdropped st), sent. simpl.
  split_and!; [done | done | done | lia | lia].
Qed.

(** C10.  On the v0.1 and v0.2 endpoints an empty content type and
    text/json pass the gate: the handler does on such a request what it
    does on the same request sent as application/json, which is to decode
    the body as JSON, and a fresh response is never given status 415. *)
Theorem empty_or_text_json_is_json v l w b ct :
  v = v01 \/ v = v02 ->
  ct = "" \/ ct = "text/json" ->
  handleTraces v l w {| Body := b; ContentType := ct |} =
  handleTraces v l w {| Body := b; ContentType := "application/json" |}
  /\ (forall body,
        decode_switch v w ct body =
        if v =? v01 then
          match json_decode_spans body with
          | None => Returned (HTTPErrorAndLog w 500 "decoding-error")
          | Some spans => Decoded w (range_order (group_byID spans)).*2
          end
        else
          match json_decode_traces body with
          | None => Returned (HTTPErrorAndLog w 500 "decoding-error")
          | Some ts => Decoded w ts
          end)
  /\ (wroteHeader w = None ->
      forall l' w', handleTraces v l w {| Body := b; ContentType := ct |} = Ok (l', w') ->
                    wroteHeader w' <> Some 415).
Proof.
  intros Hv Hct.
  assert (forall body,
        decode_switch v w ct body =
        if v =? v01 then
          match json_decode_spans body with
          | None => Returned (HTTPErrorAndLog w 500 "decoding-error")
          | Some spans => Decoded w (range_order (group_byID spans)).*2
          end
        else
          match json_decode_traces body with
          | None => Returned (HTTPErrorAndLog w 500 "decoding-error")
          | Some ts => Decoded w ts
          end) as Hdec.
  { intros body. unfold decode_switch.
    destruct Hv as [-> | ->]; destruct Hct as [-> | ->]; done. }
  split_and!.
  - unfold handleTraces. simpl. destruct b as [[body |] |]; [| done | done].
    rewrite Hdec. unfold decode_switch. by destruct Hv as [-> | ->].
  - done.
  - intros Hh l' w'. unfold handleTraces. simpl.
    destruct b as [[body |] |]; [| intros [= <- <-]; congruence | intros [= <- <-]; congruence].
    rewrite Hdec.
    assert (forall sr : switch_result,
      (sr = Returned (HTTPErrorAndLog w 500 "decoding-error") \/ exists ts, sr = Decoded w ts) ->
      match sr with
      | Returned w'0 => Ok (l, w'0)
      | Decoded w'0 traces =>
          for_each handle_trace traces (loop_start l) ≫= (fun st => Ok (log_stats l st, HTTPOK w'0))
      end = Ok (l', w') -> wroteHeader w' <> Some 415) as Hcases.
    { intros sr [-> | [ts ->]].
      - intros [= <- <-]. by rewrite wroteHeader_HTTPErrorAndLog.
      - destruct (for_each handle_trace ts (loop_start l)); simpl; [| done].
        intros [= <- <-]. by rewrite wroteHeader_HTTPOK. }
    apply Hcases.
    destruct (v =? v01).
    + destruct (json_decode_spans body); eauto.
    + destruct (json_decode_traces body); eauto.
Qed.

End ReceiverProperties.

(** ** The orchestrator *)

Section AgentProperties.
Context `{Packages}.

Lemma End_PinSublayersOnSpan (s : Span) (sl : list SublayerValue) :
  End (PinSublayersOnSpan s sl) = End s.
Proof. done. Qed.

(** C8.  A trace that is not empty and whose root (the span [GetRoot]
    designates) ends before [now - OldestSpanCutoff], in the arithmetic of
    the code: [Process] returns and starts no goroutine, neither
    [Concentrator.Add] nor [Sampler.Add]; the branch of [Run] that
    received the trace leaves the concentrator, the sampler and the
    payloads as they were. *)
Theorem late_trace_not_dispatched (a : Agent) (now : Z) (t : Trace)
    (rest : list Trace) (root : Span) :
  t <> [] ->
  t !! GetRoot t = Some root ->
  End root < sub64 now (OldestSpanCutoff (conf a)) ->
  traces (Receiver a) = t :: rest ->
  Process (conf a) now t = Ok []
  /\ exists a', receive_trace a now = Ok a'
       /\ goroutines a' = goroutines a
       /\ Concentrator_ a' = Concentrator_ a
       /\ Sampler_ a' = Sampler_ a
       /\ inPayloads a' = inPayloads a.
Proof.
  intros Hne Hroot Hlate Hrecv.
  assert (Process (conf a) now t = Ok []) as Hp.
  { unfold Process. destruct t as [|s0 t0]; [done |].
    cbn [length Nat.eqb]. rewrite Hroot.
    rewrite list_lookup_insert_eq by (by eapply lookup_lt_Some).
    rewrite End_PinSublayersOnSpan.
    destruct (Z.ltb_spec (End root) (sub64 now (OldestSpanCutoff (conf a)))); [done | lia]. }
  split; [done |].
  unfold receive_trace. rewrite Hrecv, Hp. simpl.
  eexists. split; [done |]. simpl. by rewrite app_nil_r.
Qed.

(** Nothing makes the loop wait: under [loop_first] the payload is sent
    with no stats and no traces, whatever the two flushes return, and
    what they return is in no payload. *)
Lemma tick_loop_first (a : Agent) (cf : AgentConfig) (now : Z) :
  exists st, run_schedule cf now loop_first (tick_start a) = Some st
    /\ tick_done st
    /\ t_inPayloads st =
       inPayloads a ++ [{| p_HostName := HostName cf; p_Env := DefaultEnv cf;
                           p_Stats := []; p_Traces := [] |}]
    /\ t_conc st = (Flush (Concentrator_ a) now).2
    /\ t_sampler st = (Sampler_Flush (Sampler_ a)).2.
Proof.
  unfold loop_first, tick_start. simpl.
  destruct (Flush (Concentrator_ a) now) as [sb c]. simpl.
  eexists. split; [done |]. by repeat split.
Qed.

(** Under [flushes_first] the payload holds the results of both flushes. *)
Lemma tick_flushes_first (a : Agent) (cf : AgentConfig) (now : Z) :
  exists st, run_schedule cf now flushes_first (tick_start a) = Some st
    /\ tick_done st
    /\ t_inPayloads st =
       inPayloads a ++ [{| p_HostName := HostName cf; p_Env := DefaultEnv cf;
                           p_Stats := (Flush (Concentrator_ a) now).1;
                           p_Traces := (Sampler_Flush (Sampler_ a)).1 |}].
Proof.
  unfold flushes_first, tick_start. simpl.
  destruct (Flush (Concentrator_ a) now) as [sb c]. simpl.
  eexists. split; [done |]. by repeat split.
Qed.

End AgentProperties.

(** * Concrete runs *)

(** C1 at [demo_conc] with a bucket started at 100 added, flushed at 102:
    the bucket started at 10 is returned and removed, the one started at
    100 stays. *)
Lemma Flush_witness :
  let c := set_buckets demo_conc (<[100 := demo_b 100 []]> (buckets demo_conc)) in
  buckets (Flush c 102).2 !! 10 = None
  /\ buckets (Flush c 102).2 !! 100 = Some (demo_b 100 [])
  /\ demo_b 10 [1] ∈ (Flush c 102).1.
Proof.
  intros c.
  destruct (Flush_returns_complete_buckets c 102) as (_ & Hin & Hgone & Hstay & _).
  split_and!.
  - apply Hgone. by vm_compute.
  - transitivity (buckets c !! 100); [| reflexivity].
    apply Hstay. by vm_compute.
  - apply Hin. exists 10. split; [reflexivity | by vm_compute].
Defined.

(** C2 at [demo_conc] and [demo_pt]: the spans ended at 12 and 13 join the
    bucket started at 10, the span ended at 7 opens the bucket at 5. *)
Lemma Add_witness :
  exists c', Add demo_conc demo_pt = Ok c'
    /\ keys_aligned c'
    /\ buckets c' !! 10 = Some (demo_b 10 [1; 1; 3])
    /\ buckets c' !! 5 = Some (demo_b 5 [2])
    /\ buckets c' !! 0 = None.
Proof.
  assert (keys_aligned demo_conc) as Hal.
  { intros ts [b Hb]. cbn [demo_conc buckets] in Hb.
    apply lookup_singleton_Some in Hb as [<- _]. by exists 2. }
  destruct (Add_records_in_aligned_bucket demo_conc demo_pt Hal) as (Htot & Hpres & _).
  destruct (Htot ltac:(done)) as [c' Hc'].
  destruct (Hpres c' Hc') as (_ & Hk & _ & _ & Hal').
  exists c'. split_and!; [done | done | | |]; rewrite Hk; reflexivity.
Defined.

(** C3 on scenario C: a v0.2 request whose one trace has the trace IDs 7,
    7 and 8. *)
Lemma mismatched_trace_witness :
  handleTraces v02 NewHTTPReceiver new_ResponseWriter
    {| Body := Some (ReadOk body_778); ContentType := "application/json" |} =
  Ok ({| traces := [];
         stats := {| Errors := 0; SpansReceived := 3; TracesReceived := 0;
                     SpansDropped := 3; TracesDropped := 1 |} |},
      {| wroteHeader := Some 200; written := "OK" ++ nl |}).
Proof.
  assert (demo_span Byte.x71 ∈ demo_span <$> body_778) as H1.
  { apply (list_elem_of_lookup_2 _ 0%nat). reflexivity. }
  assert (demo_span Byte.x83 ∈ demo_span <$> body_778) as H2.
  { apply (list_elem_of_lookup_2 _ 2%nat). reflexivity. }
  assert (TraceID (demo_span Byte.x71) <> TraceID (demo_span Byte.x83)) as Hne.
  { by vm_compute. }
  assert (decode_switch v02 new_ResponseWriter "application/json" body_778 =
          Decoded new_ResponseWriter ([] ++ (demo_span <$> body_778) :: [])) as Hd.
  { reflexivity. }
  destruct (mismatched_trace_dropped v02 NewHTTPReceiver new_ResponseWriter
              {| Body := Some (ReadOk body_778); ContentType := "application/json" |}
              body_778 [] [] (demo_span <$> body_778)
              (demo_span Byte.x71) (demo_span Byte.x83)
              eq_refl eq_refl eq_refl Hd H1 H2 Hne)
    as (_ & st & Hst & Hrun).
  simpl in Hst. injection Hst as <-. rewrite Hrun. reflexivity.
Defined.

(** C4 on a v0.2 request whose one trace is [trace_710]: the span without
    span ID is removed and counted as dropped, the two others are sent. *)
Lemma keeps_normalized_witness :
  exists t',
    handleTraces v02 NewHTTPReceiver new_ResponseWriter
      {| Body := Some (ReadOk [Byte.x71; Byte.x70; Byte.x73]);
         ContentType := "application/json" |} =
    Ok ({| traces := [t'];
           stats := {| Errors := 0; SpansReceived := 3; TracesReceived := 1;
                       SpansDropped := 1; TracesDropped := 0 |} |},
        {| wroteHeader := Some 200; written := "OK" ++ nl |})
    /\ t' ≡ₚ [mk_span 7 1 0 0; mk_span 7 3 0 0].
Proof.
  assert (same_trace_id trace_710) as Hsame.
  { apply same_trace_id_cons. by repeat constructor. }
  assert (~ Forall fails trace_710) as Hnall.
  { intros [[e He] _]%Forall_cons. by vm_compute in He. }
  assert (decode_switch v02 new_ResponseWriter "application/json"
            [Byte.x71; Byte.x70; Byte.x73] =
          Decoded new_ResponseWriter ([] ++ trace_710 :: [])) as Hd by reflexivity.
  destruct (same_id_trace_keeps_normalized v02 NewHTTPReceiver new_ResponseWriter
              {| Body := Some (ReadOk [Byte.x71; Byte.x70; Byte.x73]);
                 ContentType := "application/json" |}
              [Byte.x71; Byte.x70; Byte.x73] [] [] trace_710
              ltac:(reflexivity) ltac:(reflexivity) ltac:(reflexivity) Hd Hsame)
    as (st1 & st2 & sent_pre & sent_post & Hpre & Hpost & Hc1 & Hc2 & _ & Hkeep).
  destruct (Hkeep Hnall) as (t' & Hk & _ & Hrun).
  simpl in Hpre. injection Hpre as <-.
  simpl in Hpost. injection Hpost as <-.
  simpl in Hc1, Hc2.
  destruct sent_pre; [| discriminate Hc1].
  destruct sent_post; [| discriminate Hc2].
  exists t'. split; [| exact Hk].
  rewrite Hrun. reflexivity.
Defined.

(** C5 on [trace_710], from which index 1 is removed, and on a request. *)
Lemma never_panics_witness :
  (exists t', remove_from [1%nat] trace_710 = Ok t')
  /\ exists l' w',
       handleTraces v02 NewHTTPReceiver new_ResponseWriter
         {| Body := Some (ReadOk body_778); ContentType := "" |} = Ok (l', w').
Proof.
  destruct handleTraces_never_panics as (_ & Hrem & _ & Hh).
  split; [| apply Hh].
  apply Hrem. split; [simpl; lia | exact I].
Defined.

(** The claim C6 as stated fails on a request whose body cannot be read:
    the handler returns before the content-type test, and writes no
    response. *)
Lemma unread_body_not_rejected :
  let r := {| Body := Some ReadErr; ContentType := "application/msgpack" |} in
  handleTraces v01 NewHTTPReceiver new_ResponseWriter r =
    Ok (NewHTTPReceiver, new_ResponseWriter)
  /\ wroteHeader new_ResponseWriter = None
  /\ handleTraces v02 NewHTTPReceiver new_ResponseWriter r =
    Ok (NewHTTPReceiver, new_ResponseWriter).
Proof. by split_and!. Qed.

(** C6, amended, on scenario E. *)
Lemma non_json_witness :
  handleTraces v01 NewHTTPReceiver new_ResponseWriter
    {| Body := Some (ReadOk body_11); ContentType := "application/msgpack" |} =
  Ok (NewHTTPReceiver,
      {| wroteHeader := Some 415; written := "decoding-error" ++ nl |}).
Proof.
  apply (non_json_rejected_415 v01 NewHTTPReceiver new_ResponseWriter
           {| Body := Some (ReadOk body_11); ContentType := "application/msgpack" |}
           body_11); try reflexivity; try discriminate.
  by left.
Defined.

(** C8 on scenario D, in units: a cutoff of 30, a span ended at 40, the
    clock at 100. *)
Lemma late_trace_witness :
  Process demo_conf 100 [mk_span 1 1 0 40] = Ok []
  /\ exists a', receive_trace demo_agent 100 = Ok a'
       /\ goroutines a' = []
       /\ Concentrator_ a' = demo_conc.
Proof.
  assert (End (mk_span 1 1 0 40) < sub64 100 (OldestSpanCutoff (conf demo_agent)))
    as Hlate by (by vm_compute).
  destruct (late_trace_not_dispatched demo_agent 100 [mk_span 1 1 0 40] []
              (mk_span 1 1 0 40) ltac:(discriminate) eq_refl Hlate eq_refl)
    as (Hp & a' & Hrun & Hg & Hc & _).
  split; [exact Hp |]. exists a'. by split_and!.
Defined.

(** C9 on [demo_agent] at time 100: both flushes have something to return,
    and the payload that reaches the writer under [loop_first] has
    neither; the bucket is gone from the concentrator and the trace from
    the sampler. *)
Lemma tick_payload_misses_flushes :
  (Flush (Concentrator_ demo_agent) 100).1 = [demo_b 10 [1]]
  /\ (Sampler_Flush (Sampler_ demo_agent)).1 = [[mk_span 2 1 0 1]]
  /\ exists st,
       run_schedule demo_conf 100 loop_first (tick_start demo_agent) = Some st
       /\ tick_done st
       /\ t_inPayloads st =
          [{| p_HostName := "h"; p_Env := "e"; p_Stats := []; p_Traces := [] |}]
       /\ buckets (t_conc st) !! 10 = None
       /\ staged (t_sampler st) = [].
Proof.
  split_and!; [by vm_compute | by vm_compute |].
  destruct (tick_loop_first demo_agent demo_conf 100)
    as (st & Hrun & Hdone & Hpay & Hconc & Hsamp).
  exists st. split_and!; [done | done | | |].
  - by rewrite Hpay.
  - rewrite Hconc. by vm_compute.
  - by rewrite Hsamp.
Qed.

(** C10 on a v0.2 request with no content type. *)
Lemma empty_content_type_witness :
  handleTraces v02 NewHTTPReceiver new_ResponseWriter
    {| Body := Some (ReadOk body_11); ContentType := "" |} =
  handleTraces v02 NewHTTPReceiver new_ResponseWriter
    {| Body := Some (ReadOk body_11); ContentType := "application/json" |}.
Proof.
  apply (empty_or_text_json_is_json v02 NewHTTPReceiver new_ResponseWriter
           (Some (ReadOk body_11)) ""); [by right | by left].
Defined.

(** * Further properties of the code *)

(** ** The Concentrator *)

Section ConcentratorFurther.
Context `{Packages}.
Implicit Types (c : Concentrator) (t : processedTrace) (s : Span).

(** X1.  With a positive bucket size, a span that ends at or after the epoch
    ends inside its bucket, [btime <= End < btime + bsize].  Go's [%]
    truncates, so the bucket of a span that ends before the epoch starts
    at or after its end, within one bucket size. *)
Theorem btime_interval c s :
  0 < bsize c ->
  (0 <= End s -> btime c s <= End s < btime c s + bsize c)
  /\ (End s < 0 -> End s <= btime c s < End s + bsize c /\ btime c s <= 0).
Proof.
  intros Hpos. destruct (btime_exact c s ltac:(lia)) as [Hb Hq]. split.
  - intros He. rewrite Hb.
    pose proof (Z.rem_bound_pos (End s) (bsize c) He Hpos). lia.
  - intros He.
    pose proof (Z.mul_quot_ge (End s) (bsize c) ltac:(lia) ltac:(lia)) as Hge.
    rewrite <- Hq in Hge. split; [| lia]. rewrite Hb.
    pose proof (Z.rem_nonpos (End s) (bsize c) ltac:(lia) ltac:(lia)).
    pose proof (Z.rem_bound_abs (End s) (bsize c) ltac:(lia)). lia.
Qed.

Lemma filter_none {A} (P : A -> Prop) `{!forall x, Decision (P x)} (l : list A) :
  (forall x, x ∈ l -> ~ P x) -> filter P l = [].
Proof.
  induction l as [|x l IH]; intros Hn; [done |].
  rewrite filter_cons. rewrite decide_False by (apply Hn; left).
  apply IH. intros y Hy. apply Hn. by right.
Qed.

(** X2.  A second [Flush], at the same time or at an earlier one, returns
    nothing and leaves the concentrator as the first one left it. *)
Theorem Flush_twice c now now' :
  sub64 now' (bsize c) <= sub64 now (bsize c) ->
  (Flush (Flush c now).2 now').1 = []
  /\ (Flush (Flush c now).2 now').2 = (Flush c now).2.
Proof.
  intros Hle.
  assert (filter (complete now' (bsize (Flush c now).2))
            (range_order (buckets (Flush c now).2)) = []) as Hnone.
  { apply filter_none. intros [ts b] Hin%elem_of_range_order Hc.
    unfold complete in Hc. simpl in Hc.
    rewrite Flush_lookup in Hin. case_decide; [done |].
    rewrite Flush_unfold in Hc. simpl in Hc. lia. }
  rewrite (Flush_unfold (Flush c now).2 now'). rewrite Hnone. simpl.
  split; [done |]. by destruct ((Flush c now).2).
Qed.

(** X3.  [Flush] loses no bucket and makes none: the buckets it returns
    together with those it leaves stored are the buckets stored before. *)
Theorem Flush_conserves_buckets c now :
  (Flush c now).1 ++ (map_to_list (buckets (Flush c now).2)).*2
  ≡ₚ (map_to_list (buckets c)).*2.
Proof.
  assert (map_to_list (buckets (Flush c now).2)
          ≡ₚ filter (fun e => ~ complete now (bsize c) e) (map_to_list (buckets c)))
    as Hrest.
  { apply NoDup_Permutation.
    - apply NoDup_map_to_list.
    - apply NoDup_filter, NoDup_map_to_list.
    - intros [ts b]. rewrite elem_of_map_to_list, list_elem_of_filter,
        elem_of_map_to_list, Flush_lookup.
      unfold complete. simpl.
      destruct (decide (ts <= sub64 now (bsize c))) as [Hle | Hgt].
      + split; [done | by intros [Hn _]].
      + split; [by intros Hb | by intros [_ Hb]]. }
  rewrite Hrest. rewrite Flush_unfold. simpl.
  rewrite (range_order_perm _ (buckets c)).
  rewrite <- fmap_app. f_equiv. apply filter_app_complement.
Qed.

(** X4.  [Add] of a trace without spans changes nothing, whatever the bucket
    size; with a bucket size of zero, [Add] of any other trace panics in
    the remainder. *)
Theorem Add_empty_or_zero_size c t :
  (pt_Trace t = [] -> Add c t = Ok c)
  /\ (bsize c = 0 -> pt_Trace t <> [] -> Add c t = Panic "integer divide by zero").
Proof.
  unfold Add. split.
  - by intros ->.
  - intros Hz Hne. destruct (pt_Trace t) as [|s ss]; [done |]. simpl.
    by rewrite (add_span_Panic _ _ _ Hz).
Qed.

Lemma size_list_to_set_le (l : list Z) :
  (size (list_to_set (C := gset Z) l) <= length l)%nat.
Proof.
  induction l as [|x l IH].
  - rewrite list_to_set_nil, size_empty. done.
  - rewrite list_to_set_cons.
    pose proof (size_union_alt (C := gset Z) {[x]} (list_to_set l)) as Hu.
    assert (list_to_set (C := gset Z) l ∖ {[x]} ⊆ list_to_set l) as Hsub
      by (by intros y [Hy _]%elem_of_difference).
    pose proof (subseteq_size _ _ Hsub).
    rewrite size_singleton in Hu. simpl. lia.
Qed.

(** X5.  [Add] removes no bucket: every key stored before is stored after, a
    new key is the bucket start of a span of the trace, and the map grows
    by at most one bucket per span. *)
Theorem Add_keeps_buckets c t c' :
  Add c t = Ok c' ->
  dom (buckets c) ⊆ dom (buckets c')
  /\ (forall k, k ∈ dom (buckets c') -> k ∉ dom (buckets c) ->
        exists s, s ∈ pt_Trace t /\ btime c s = k)
  /\ (size (buckets c') <= size (buckets c) + length (pt_Trace t))%nat.
Proof.
  intros Hadd. unfold Add in Hadd.
  apply for_each_add_span in Hadd as (_ & _ & Hk).
  assert (forall k, k ∈ dom (buckets c') -> k ∉ dom (buckets c) ->
        exists s, s ∈ pt_Trace t /\ btime c s = k) as Hnew.
  { intros k Hin Hnin. apply elem_of_dom in Hin. rewrite Hk in Hin.
    apply recorded_is_Some in Hin as [Ho | Hs]; [| done].
    exfalso. apply Hnin. by apply elem_of_dom. }
  split_and!; [| done |].
  - intros k Hin. apply elem_of_dom in Hin as [b Hb]. apply elem_of_dom.
    rewrite Hk, Hb. clear.
    generalize b. induction (pt_Trace t) as [|s ss IH]; intros b0; simpl; [by eexists |].
    case_decide; apply IH.
  - assert (dom (buckets c') ⊆ dom (buckets c) ∪ list_to_set (btime c <$> pt_Trace t))
      as Hsub.
    { intros k Hin. destruct (decide (k ∈ dom (buckets c))) as [? | Hnin];
        [by apply elem_of_union_l |].
      destruct (Hnew k Hin Hnin) as (s & Hs & <-).
      apply elem_of_union_r, elem_of_list_to_set, list_elem_of_fmap. eauto. }
    rewrite <- !size_dom.
    pose proof (subseteq_size _ _ Hsub) as Hsize.
    rewrite size_union_alt in Hsize.
    assert (list_to_set (C := gset Z) (btime c <$> pt_Trace t) ∖ dom (buckets c)
            ⊆ list_to_set (btime c <$> pt_Trace t)) as Hdiff
      by (by intros y [Hy _]%elem_of_difference).
    pose proof (subseteq_size _ _ Hdiff).
    pose proof (size_list_to_set_le (btime c <$> pt_Trace t)) as Hl.
    rewrite length_fmap in Hl. lia.
Qed.

(** X6.  A span that arrives after the bucket of its time was flushed does not
    find the flushed bucket: [Add] opens a new one under the same key. *)
Theorem Add_after_Flush_new_bucket c now t s :
  bsize c <> 0 ->
  pt_Trace t = [s] ->
  btime c s <= sub64 now (bsize c) ->
  exists c', Add (Flush c now).2 t = Ok c'
    /\ buckets c' !! btime c s =
       Some (record_span t (aggregators c)
               (NewStatsBucket (btime c s) (bsize c)) s)
    /\ forall k, k <> btime c s -> buckets c' !! k = buckets (Flush c now).2 !! k.
Proof.
  intros Hnz Ht Hle. unfold Add. rewrite Ht. simpl.
  assert (bsize (Flush c now).2 = bsize c) as Hb by (by rewrite Flush_unfold).
  assert (aggregators (Flush c now).2 = aggregators c) as Ha by (by rewrite Flush_unfold).
  assert (btime (Flush c now).2 s = btime c s) as Hbt by (unfold btime; by rewrite Hb).
  rewrite add_span_Ok by (by rewrite Hb). simpl.
  eexists. split; [done |]. simpl. rewrite Hbt, Hb, Ha. split.
  - rewrite lookup_insert_eq. rewrite Flush_lookup. by rewrite decide_True.
  - intros k Hne. by rewrite lookup_insert_ne.
Qed.

Lemma insert_sorted_perm x (xs : list string) : insert_sorted x xs ≡ₚ x :: xs.
Proof.
  induction xs as [|y ys IH]; simpl; [done |].
  destruct (String.leb x y); [done |]. rewrite IH. apply perm_swap.
Qed.

Lemma insert_sorted_Sorted x (xs : list string) :
  Sorted (fun a b => String.leb a b = true) xs ->
  Sorted (fun a b => String.leb a b = true) (insert_sorted x xs).
Proof.
  induction xs as [|y ys IH]; intros Hs; simpl.
  - by repeat constructor.
  - destruct (String.leb x y) eqn:Hxy.
    + constructor; [done | by constructor].
    + apply Sorted_inv in Hs as [Hs Hhd].
      constructor; [by apply IH |].
      destruct (String.leb_total x y) as [? | Hyx]; [congruence |].
      destruct ys as [|z zs]; simpl; [by constructor |].
      destruct (String.leb x z); constructor; [done |].
      by apply HdRel_inv in Hhd.
Qed.

(** X7.  [NewConcentrator] keeps the bucket size, starts with no bucket, and
    holds the aggregators it was given, sorted by byte order. *)
Theorem NewConcentrator_sorted (aggs : list string) (bs : Z) :
  Sorted (fun a b => String.leb a b = true) (aggregators (NewConcentrator aggs bs))
  /\ aggregators (NewConcentrator aggs bs) ≡ₚ aggs
  /\ buckets (NewConcentrator aggs bs) = ∅
  /\ bsize (NewConcentrator aggs bs) = bs.
Proof.
  split_and!; [| | done | done]; simpl; unfold sort_Strings.
  - induction aggs as [|x xs IH]; simpl; [constructor | by apply insert_sorted_Sorted].
  - induction aggs as [|x xs IH]; simpl; [done |].
    by rewrite insert_sorted_perm, IH.
Qed.

End ConcentratorFurther.

(** ** The receiver *)

Section ReceiverFurther.
Context `{Packages}.
Implicit Types (t : Trace) (s : Span) (st : loop_state).

(** *** The regrouping of the v0.1 endpoint *)

Lemma foldl_group_lookup (spans : list Span) (m : gmap Z (list Span)) (id : Z) :
  foldl (fun byID s => <[TraceID s := default [] (byID !! TraceID s) ++ [s]]> byID)
        m spans !! id =
  match filter (fun s => TraceID s = id) spans with
  | [] => m !! id
  | g => Some (default [] (m !! id) ++ g)
  end.
Proof.
  revert m. induction spans as [|s spans IH]; intros m; [done |].
  cbn [foldl]. rewrite IH. rewrite filter_cons.
  destruct (decide (TraceID s = id)) as [<- | Hne].
  - rewrite lookup_insert_eq. simpl.
    destruct (filter (fun s0 => TraceID s0 = TraceID s) spans); [done |].
    by rewrite <- app_assoc.
  - by rewrite lookup_insert_ne.
Qed.

Lemma group_byID_lookup (spans : list Span) (id : Z) :
  group_byID spans !! id =
  match filter (fun s => TraceID s = id) spans with
  | [] => None
  | g => Some g
  end.
Proof.
  unfold group_byID. rewrite foldl_group_lookup. rewrite lookup_empty.
  by destruct (filter (fun s => TraceID s = id) spans).
Qed.

Lemma group_byID_join (spans : list Span) :
  mjoin (map_to_list (group_byID spans)).*2 ≡ₚ spans.
Proof.
  induction spans as [|s spans IH] using rev_ind.
  - unfold group_byID. simpl. by rewrite map_to_list_empty.
  - unfold group_byID in *. rewrite foldl_snoc.
    set (m := foldl _ ∅ spans) in *.
    destruct (m !! TraceID s) as [g|] eqn:Hg; simpl.
    + rewrite <- insert_delete_eq.
      rewrite map_to_list_insert by apply lookup_delete_eq.
      rewrite <- (map_to_list_delete m _ _ Hg) in IH.
      simpl in *. rewrite <- IH. rewrite <- !app_assoc. f_equiv.
      apply Permutation_app_comm.
    + rewrite map_to_list_insert by done. simpl. rewrite IH.
      apply Permutation_cons_append.
Qed.

Lemma group_byID_dom (spans : list Span) :
  dom (group_byID spans) = list_to_set (TraceID <$> spans).
Proof.
  apply set_eq. intros id.
  rewrite elem_of_dom, group_byID_lookup, elem_of_list_to_set, list_elem_of_fmap.
  split.
  - destruct (filter (fun s => TraceID s = id) spans) as [|s g] eqn:Hf;
      [by intros [? ?] |].
    intros _. assert (s ∈ filter (fun s => TraceID s = id) spans) as Hin
      by (rewrite Hf; left).
    apply list_elem_of_filter in Hin as [Hid Hin]. eauto.
  - intros (s & -> & Hin).
    assert (s ∈ filter (fun s0 => TraceID s0 = TraceID s) spans) as Hf
      by (by apply list_elem_of_filter).
    destruct (filter (fun s0 => TraceID s0 = TraceID s) spans);
      [by apply elem_of_nil in Hf | by eexists].
Qed.

(** X8.  On the v0.1 endpoint a body that decodes into spans gives one trace
    per trace ID: each trace holds the spans of its ID in the order of the
    request, so it is not empty and passes the trace-ID check; every span
    is in exactly one trace. *)
Theorem v01_regroups_by_trace_id w contentType body (spans : list Span) :
  unsupported_media_type contentType = false ->
  json_decode_spans body = Some spans ->
  exists ts : list Trace,
    decode_switch v01 w contentType body = Decoded w ts
    /\ mjoin ts ≡ₚ spans
    /\ length ts = size (list_to_set (C := gset Z) (TraceID <$> spans))
    /\ Forall (fun t => t <> [] /\ same_trace_id t
                        /\ exists id, t = filter (fun s => TraceID s = id) spans) ts.
Proof.
  intros Hgate Hdec. eexists. unfold decode_switch. simpl. rewrite Hgate, Hdec.
  split_and!; [done | | |].
  - rewrite (range_order_perm _ (group_byID spans)). apply group_byID_join.
  - rewrite length_fmap, (range_order_perm _ (group_byID spans)).
    rewrite length_map_to_list, <- group_byID_dom. symmetry. apply size_dom.
  - apply Forall_forall. intros t ([id t'] & -> & Hin)%list_elem_of_fmap.
    rewrite (range_order_perm _ (group_byID spans)) in Hin.
    apply elem_of_map_to_list in Hin. rewrite group_byID_lookup in Hin. simpl.
    destruct (filter (fun s => TraceID s = id) spans) as [|s g] eqn:Hf; [done |].
    injection Hin as <-. split_and!; [done | | by exists id].
    intros s1 s2 H1 H2. rewrite <- Hf in H1, H2.
    apply list_elem_of_filter in H1 as [-> _].
    by apply list_elem_of_filter in H2 as [-> _].
Qed.

(** *** Traces that lose no span *)

Lemma fail_indices_none i (l : list Span) :
  Forall (fun s => ~ fails s) l -> fail_indices i l = [].
Proof.
  revert i. induction l as [|s l IH]; intros i Hall; [done |].
  apply Forall_cons in Hall as [Hs Hall]. simpl.
  rewrite decide_False by done. by apply IH.
Qed.

(** The iteration over a trace with one trace ID of which every span
    normalizes forwards the normalized trace. *)
Lemma handle_trace_clean t :
  t <> [] -> same_trace_id t -> Forall (fun s => ~ fails s) t ->
  forall st, handle_trace st t = Ok (forward st t (normalized <$> t)).
Proof.
  intros Hne Hsame Hall st. unfold handle_trace. rewrite normalize_from_spec.
  rewrite decide_True by done. rewrite (fail_indices_none 0 t Hall).
  rewrite length_fmap. destruct t as [|s t']; [done |].
  cbn [length Nat.eqb swap_and_truncate reverse remove_from]. simpl.
  unfold forward. simpl. rewrite length_fmap. do 2 f_equal; lia.
Qed.

(** X9.  A request that decodes into traces of which one, [t], is not
    empty, has one trace ID and spans that all normalize: the handler sends
    for it the normalized spans in their order, on the receiver's channel
    between what the traces before and after [t] send; it answers 200, adds
    one to TracesReceived and the spans of [t] to SpansReceived, and adds
    nothing for [t] to SpansDropped and TracesDropped. *)
Theorem clean_trace_forwarded_in_order v l w r body (pre post : list Trace) t :
  wroteHeader w = None -> written w = "" ->
  Body r = Some (ReadOk body) ->
  decode_switch v w (ContentType r) body = Decoded w (pre ++ t :: post) ->
  t <> [] -> same_trace_id t -> Forall (fun s => ~ fails s) t ->
  exists st1 st2 sent_pre sent_post,
    for_each handle_trace pre (loop_start l) = Ok st1
    /\ for_each handle_trace post st1 = Ok st2
    /\ chan st1 = traces l ++ sent_pre
    /\ chan st2 = chan st1 ++ sent_post
    /\ handleTraces v l w r =
       Ok ({| traces := traces l ++ sent_pre ++ [normalized <$> t] ++ sent_post;
              stats :=
                {| Errors := Errors (stats l);
                   SpansReceived :=
                     add64 (SpansReceived (stats l)) (stotal st2 + Z.of_nat (length t));
                   TracesReceived := add64 (TracesReceived (stats l)) (ttotal st2 + 1);
                   SpansDropped := add64 (SpansDropped (stats l)) (sdropped st2);
                   TracesDropped := add64 (TracesDropped (stats l)) (tdropped st2) |} |},
           {| wroteHeader := Some 200; written := "OK" ++ nl |}).
Proof.
  intros Hh Hw Hb Hd Hne Hsame Hall.
  destruct (for_each_handle_trace_total pre (loop_start l)) as [st1 Hpre].
  destruct (for_each_handle_trace_total post st1) as [st2 Hpost].
  destruct (for_each_handle_trace_account pre _ _ Hpre) as (sent_pre & Hc1 & _).
  simpl in Hc1.
  destruct (for_each_forward pre post t (normalized <$> t) _ _ _
              (handle_trace_clean t Hne Hsame Hall) Hpre Hpost)
    as (sent_post & Hc2 & Hrun).
  exists st1, st2, sent_pre, sent_post. split_and!; [done | done | done | done |].
  rewrite (handleTraces_decoded _ _ _ _ _ _ _ Hb Hd), Hrun. simpl.
  rewrite HTTPOK_fresh by done. unfold log_stats. simpl.
  rewrite Hc1, <- !app_assoc, length_fmap. simpl.
  replace (sdropped st2 + (Z.of_nat (length t) - Z.of_nat (length t)))
    with (sdropped st2) by lia.
  done.
Qed.

(** *** The counts of traces *)

Lemma handle_trace_count st t st' :
  handle_trace st t = Ok st' ->
  exists sent, chan st' = chan st ++ sent
    /\ ttotal st' - ttotal st = Z.of_nat (length sent)
    /\ (ttotal st' - ttotal st) + (tdropped st' - tdropped st) = 1
    /\ Forall (fun t' => t' <> []) sent.
Proof.
  intros Hrun.
  destruct (decide (same_trace_id t)) as [Hsame | Hn].
  - destruct (decide (Forall fails t)) as [Hall | Hnall].
    + rewrite handle_trace_all_fail in Hrun by done. injection Hrun as <-.
      exists []. simpl. rewrite app_nil_r. split_and!; [done | lia | lia | done].
    + destruct (handle_trace_forward t Hsame Hnall) as (t' & Hne & _ & _ & Hrun').
      rewrite Hrun' in Hrun. injection Hrun as <-.
      exists [t']. simpl. split_and!; [done | lia | lia | by constructor].
  - rewrite handle_trace_mismatch in Hrun by done. injection Hrun as <-.
    exists []. simpl. rewrite app_nil_r. split_and!; [done | lia | lia | done].
Qed.

Lemma for_each_handle_trace_count (ts : list Trace) st st' :
  for_each handle_trace ts st = Ok st' ->
  exists sent, chan st' = chan st ++ sent
    /\ ttotal st' - ttotal st = Z.of_nat (length sent)
    /\ (ttotal st' - ttotal st) + (tdropped st' - tdropped st) = Z.of_nat (length ts)
    /\ Forall (fun t' => t' <> []) sent.
Proof.
  revert st. induction ts as [|t ts IH]; intros st Hrun; simpl in Hrun.
  - injection Hrun as <-. exists []. rewrite app_nil_r. simpl.
    split_and!; [done | lia | lia | done].
  - destruct (handle_trace st t) as [st1 | msg] eqn:Hstep; [| done]. simpl in Hrun.
    apply handle_trace_count in Hstep as (sent1 & Hc1 & Ht1 & Hd1 & Hn1).
    apply IH in Hrun as (sent2 & Hc2 & Ht2 & Hd2 & Hn2).
    exists (sent1 ++ sent2). rewrite Hc2, Hc1, <- app_assoc, length_app.
    split_and!; [done | lia | simpl length; lia | by apply Forall_app].
Qed.

(** X10.  Every decoded trace is either sent on the channel or counted as
    dropped, never both and never neither: the amount added to
    [TracesReceived] is the number of traces sent, it and the amount added
    to [TracesDropped] make the number of decoded traces, and no trace
    sent is empty. *)
Theorem traces_received_or_dropped v l w r body w' (ts : list Trace) :
  Body r = Some (ReadOk body) ->
  decode_switch v w (ContentType r) body = Decoded w' ts ->
  exists l' sent received dropped,
    handleTraces v l w r = Ok (l', HTTPOK w')
    /\ traces l' = traces l ++ sent
    /\ TracesReceived (stats l') = add64 (TracesReceived (stats l)) received
    /\ TracesDropped (stats l') = add64 (TracesDropped (stats l)) dropped
    /\ received = Z.of_nat (length sent)
    /\ received + dropped = Z.of_nat (length ts)
    /\ Forall (fun t' => t' <> []) sent.
Proof.
  intros Hb Hd. rewrite (handleTraces_decoded _ _ _ _ _ _ _ Hb Hd).
  destruct (for_each_handle_trace_total ts (loop_start l)) as [st Hst].
  rewrite Hst. simpl.
  apply for_each_handle_trace_count in Hst as (sent & Hc & Ht & Hdr & Hne).
  simpl in Hc, Ht, Hdr.
  exists (log_stats l st), sent, (ttotal st), (tdropped st). simpl.
  split_and!; [done | done | done | done | lia | lia | done].
Qed.

(** *** The answers of the handler *)

(** X11.  On the three versions that [Run] registers, a request is answered
    200, 415 or 500, or not at all; it is not answered only when its body
    is nil or cannot be read, 415 is never the answer of v0.3, and the
    receiver changes only with the answer 200. *)
Theorem handleTraces_answers v l w r l' w' :
  v = v01 \/ v = v02 \/ v = v03 ->
  wroteHeader w = None ->
  handleTraces v l w r = Ok (l', w') ->
  (wroteHeader w' = None /\ l' = l /\ w' = w
     /\ (Body r = None \/ Body r = Some ReadErr))
  \/ (wroteHeader w' = Some 415 /\ l' = l /\ v <> v03
        /\ unsupported_media_type (ContentType r) = true)
  \/ (wroteHeader w' = Some 500 /\ l' = l)
  \/ wroteHeader w' = Some 200.
Proof.
  intros Hv Hh. unfold handleTraces.
  destruct (Body r) as [[body |] |] eqn:Hb;
    [| intros [= <- <-]; left; eauto | intros [= <- <-]; left; eauto].
  assert (forall sr,
    match sr with
    | Returned w0 => wroteHeader w0 = Some 500 \/
        (wroteHeader w0 = Some 415 /\ v <> v03
         /\ unsupported_media_type (ContentType r) = true)
    | Decoded w0 _ => w0 = w
    end ->
    match sr with
    | Returned w'0 => Ok (l, w'0)
    | Decoded w'0 traces =>
        for_each handle_trace traces (loop_start l) ≫=
          (fun st => Ok (log_stats l st, HTTPOK w'0))
    end = Ok (l', w') ->
    (wroteHeader w' = Some 415 /\ l' = l /\ v <> v03
          /\ unsupported_media_type (ContentType r) = true)
    \/ (wroteHeader w' = Some 500 /\ l' = l)
    \/ wroteHeader w' = Some 200) as Hcases.
  { intros [w0 | w0 ts] Hsr.
    - intros [= <- <-]. destruct Hsr as [? | (? & ? & ?)]; eauto 6.
    - subst w0. destruct (for_each handle_trace ts (loop_start l)); simpl; [| done].
      intros [= <- <-]. do 2 right. by apply wroteHeader_HTTPOK. }
  intros Hrun. right. revert Hrun. apply Hcases.
  - unfold decode_switch.
    destruct Hv as [-> | [-> | ->]]; simpl.
    + destruct (unsupported_media_type (ContentType r)) eqn:Hg.
      * right. by rewrite wroteHeader_HTTPErrorAndLog.
      * destruct (json_decode_spans body); [done |].
        left. by apply wroteHeader_HTTPErrorAndLog.
    + destruct (unsupported_media_type (ContentType r)) eqn:Hg.
      * right. by rewrite wroteHeader_HTTPErrorAndLog.
      * destruct (json_decode_traces body); [done |].
        left. by apply wroteHeader_HTTPErrorAndLog.
    + destruct (initDecoder (ContentType r) body); [done |].
      left. by apply wroteHeader_HTTPErrorAndLog.
Qed.

(** X12.  The [default] case of the switch has no [return]: for a version that
    is none of the three, the handler writes the error 500 and goes on, so
    that the body of the answer is the error followed by OK, and the four
    counters get zero added. *)
Theorem unsupported_version_goes_on v l w r body :
  v <> v01 -> v <> v02 -> v <> v03 ->
  Body r = Some (ReadOk body) ->
  wroteHeader w = None -> written w = "" ->
  handleTraces v l w r =
  Ok ({| traces := traces l;
         stats := {| Errors := Errors (stats l);
                     SpansReceived := add64 (SpansReceived (stats l)) 0;
                     TracesReceived := add64 (TracesReceived (stats l)) 0;
                     SpansDropped := add64 (SpansDropped (stats l)) 0;
                     TracesDropped := add64 (TracesDropped (stats l)) 0 |} |},
      {| wroteHeader := Some 500;
         written := "unsupported-endpoint" ++ nl ++ "OK" ++ nl |}).
Proof.
  intros H1 H2 H3 Hb Hh Hw. unfold handleTraces, decode_switch. rewrite Hb.
  apply Z.eqb_neq in H1, H2, H3. rewrite H1, H2, H3. simpl.
  rewrite HTTPErrorAndLog_fresh by done. reflexivity.
Qed.

End ReceiverFurther.

(** ** The services handler *)

Section ServicesProperties.
Context `{ServicesDecoders}.

(** X14.  [handleServices] treats v0.1 as v0.2.  On the three versions that
    [Run] registers it sends metadata on the channel exactly when it
    answers 200, and then it sends one; an unreadable body gets no answer,
    another content type than JSON on v0.1 and v0.2 gets 415, a body that
    does not decode 500, and none of them sends anything. *)
Theorem handleServices_answers v (services : list ServicesMetadata) w r :
  v = v01 \/ v = v02 \/ v = v03 ->
  wroteHeader w = None ->
  handleServices v01 services w r = handleServices v02 services w r
  /\ ((wroteHeader (handleServices v services w r).2 = Some 200
       /\ exists servicesMeta,
            (handleServices v services w r).1 = services ++ [servicesMeta])
      \/ ((handleServices v services w r).1 = services
          /\ ((handleServices v services w r).2 = w
                /\ (Body r = None \/ Body r = Some ReadErr)
              \/ (wroteHeader (handleServices v services w r).2 = Some 415
                  /\ v <> v03 /\ unsupported_media_type (ContentType r) = true)
              \/ wroteHeader (handleServices v services w r).2 = Some 500))).
Proof.
  intros Hv Hh. split; [done |].
  unfold handleServices.
  destruct (Body r) as [[body |] |]; [| right; simpl; eauto | right; simpl; eauto].
  assert (forall sw,
    match sw with
    | ServicesReturned w0 => wroteHeader w0 = Some 500 \/
        (wroteHeader w0 = Some 415 /\ v <> v03
         /\ unsupported_media_type (ContentType r) = true)
    | ServicesDecoded w0 _ => w0 = w
    end ->
    let res := match sw with
               | ServicesReturned w' => (services, w')
               | ServicesDecoded w' servicesMeta =>
                   (services ++ [servicesMeta], HTTPOK w')
               end in
    (wroteHeader res.2 = Some 200 /\ exists servicesMeta, res.1 = services ++ [servicesMeta])
    \/ (res.1 = services
        /\ (res.2 = w /\ (Some (ReadOk body) = None \/ Some (ReadOk body) = Some ReadErr)
            \/ (wroteHeader res.2 = Some 415 /\ v <> v03
                /\ unsupported_media_type (ContentType r) = true)
            \/ wroteHeader res.2 = Some 500))) as Hcases.
  { intros [w0 | w0 m] Hsw; simpl.
    - right. split; [done |]. destruct Hsw as [? | ?]; eauto.
    - subst w0. left. split; [by apply wroteHeader_HTTPOK | by eexists]. }
  apply Hcases. unfold services_v02.
  destruct Hv as [-> | [-> | ->]]; simpl.
  - destruct (unsupported_media_type (ContentType r)) eqn:Hg.
    + right. by rewrite wroteHeader_HTTPErrorAndLog.
    + destruct (json_decode_services body); [done |].
      left. by apply wroteHeader_HTTPErrorAndLog.
  - destruct (unsupported_media_type (ContentType r)) eqn:Hg.
    + right. by rewrite wroteHeader_HTTPErrorAndLog.
    + destruct (json_decode_services body); [done |].
      left. by apply wroteHeader_HTTPErrorAndLog.
  - destruct (if String.eqb (ContentType r) "application/msgpack"
              then msgpack_decode_services body else json_decode_services body);
      [done |].
    left. by apply wroteHeader_HTTPErrorAndLog.
Qed.

End ServicesProperties.

(** ** The orchestrator *)

Section AgentFurther.
Context `{Packages}.

(** X15.  A trace that is not empty and whose root does not end before
    [now - OldestSpanCutoff] (a root that ends exactly then is on time) is
    given to both [Concentrator.Add] and [Sampler.Add], as one and the same
    processed trace: the spans of the trace in their order, each
    quantized, the root with its sublayers pinned. *)
Theorem on_time_trace_dispatched (cf : AgentConfig) (now : Z) (t : Trace)
    (root : Span) :
  t <> [] ->
  t !! GetRoot t = Some root ->
  sub64 now (OldestSpanCutoff cf) <= End root ->
  let root' := PinSublayersOnSpan root (default [] (ComputeSublayers t)) in
  let pt := {| pt_Trace := Quantize <$> <[GetRoot t := root']> t;
               pt_Root := Some (Quantize root');
               pt_Env := GetEnv (Quantize <$> <[GetRoot t := root']> t);
               pt_Sublayers := ComputeSublayers t |} in
  Process cf now t = Ok [go_Concentrator_Add pt; go_Sampler_Add pt]
  /\ length (pt_Trace pt) = length t
  /\ pt_Trace pt !! GetRoot t = pt_Root pt
  /\ forall i s, i <> GetRoot t -> t !! i = Some s ->
                 pt_Trace pt !! i = Some (Quantize s).
Proof.
  intros Hne Hroot Hcut root' pt.
  assert (GetRoot t < length t)%nat as Hlt by (by eapply lookup_lt_Some).
  assert ((Quantize <$> <[GetRoot t := root']> t) !! GetRoot t = Some (Quantize root'))
    as Hr.
  { rewrite list_lookup_fmap, list_lookup_insert_eq by done. done. }
  split_and!.
  - unfold Process. destruct t as [|s0 t0]; [done |].
    cbn [length Nat.eqb]. rewrite Hroot.
    rewrite list_lookup_insert_eq by done.
    rewrite End_PinSublayersOnSpan.
    destruct (Z.ltb_spec (End root) (sub64 now (OldestSpanCutoff cf))); [lia |].
    fold root'. rewrite Hr. done.
  - simpl. by rewrite length_fmap, length_insert.
  - done.
  - intros i s Hi Hs. simpl.
    rewrite list_lookup_fmap, list_lookup_insert_ne by done. by rewrite Hs.
Qed.

(** X16.  When the goroutines of such a trace have run on a concentrator with a
    bucket size other than zero, every span of the processed trace has a
    bucket, under a key that is a multiple of the bucket size. *)
Theorem dispatched_trace_gets_buckets (cf : AgentConfig) (now : Z) (t : Trace)
    (root : Span) (c : Concentrator) :
  t <> [] ->
  t !! GetRoot t = Some root ->
  sub64 now (OldestSpanCutoff cf) <= End root ->
  bsize c <> 0 ->
  exists gs c',
    Process cf now t = Ok gs
    /\ gs <> []
    /\ for_each run_goroutine gs c = Ok c'
    /\ forall g s, g ∈ gs -> s ∈ pt_Trace (match g with
                                            | go_Concentrator_Add pt => pt
                                            | go_Sampler_Add pt => pt
                                            end) ->
         is_Some (buckets c' !! btime c s) /\ (bsize c | btime c s).
Proof.
  intros Hne Hroot Hcut Hnz.
  unfold Process. destruct t as [|s0 t0]; [done |].
  assert (GetRoot (s0 :: t0) < length (s0 :: t0))%nat as Hlt
    by (by eapply lookup_lt_Some).
  cbn [length Nat.eqb]. rewrite Hroot.
  rewrite list_lookup_insert_eq by done.
  rewrite End_PinSublayersOnSpan.
  destruct (Z.ltb_spec (End root) (sub64 now (OldestSpanCutoff cf))); [lia |].
  set (pt := {| pt_Trace := _; pt_Root := _; pt_Env := _; pt_Sublayers := _ |}).
  destruct (for_each_add_span_total pt (pt_Trace pt) c Hnz) as [c' Hadd].
  exists [go_Concentrator_Add pt; go_Sampler_Add pt], c'.
  split_and!; [done | done | |].
  - cbn [for_each run_goroutine]. unfold Add. rewrite Hadd. done.
  - apply for_each_add_span in Hadd as (_ & _ & Hk).
    intros g s Hg Hs.
    assert (s ∈ pt_Trace pt) as Hs'.
    { apply elem_of_cons in Hg as [-> | Hg]; [done |].
      by apply list_elem_of_singleton in Hg as ->. }
    split.
    + rewrite Hk. by apply recorded_hit.
    + destruct (btime_exact c s Hnz) as [_ ->]. by exists (End s ÷ bsize c); lia.
Qed.

(** *** The tick, whatever the schedule *)

Lemma tick_start_inv (a : Agent) (cf : AgentConfig) (now : Z) :
  tick_inv a cf now (tick_start a).
Proof.
  unfold tick_inv, tick_start. simpl. split_and!; try done; intros; lia.
Qed.

Lemma tick_step_inv (a : Agent) (cf : AgentConfig) (now : Z) (who : task)
    (st st' : tick_state) :
  tick_inv a cf now st -> tick_step cf now who st = Some st' ->
  tick_inv a cf now st'.
Proof.
  unfold tick_inv.
  intros (Hc & Hs & Hps & Hpt & Hhe & Hl5 & Hst & Htr & Hin & Hwg) Hstep.
  destruct who; simpl in Hstep.
  - (* the loop of Run *)
    destruct (pc_loop st) as [|[|[|[|[|n]]]]] eqn:Hpc; [| | | | | done];
      injection Hstep as <-; simpl in *.
    + rewrite (Hst ltac:(lia)), (Htr ltac:(lia)) in *. simpl in *.
      split_and!; try done; intros; lia.
    + rewrite (Hst ltac:(lia)), (Htr ltac:(lia)) in *. simpl in *.
      split_and!; try done; try (intros; lia). intros _. apply Hhe. lia.
    + rewrite (Hst ltac:(lia)), (Htr ltac:(lia)) in *. simpl in *.
      split_and!; try done; try (intros; lia). intros _. apply Hhe. lia.
    + rewrite (Htr ltac:(lia)) in *. simpl in *.
      split_and!; try done; try (intros; lia). intros _. apply Hhe. lia.
    + split_and!; try done; try (intros; lia); [intros _; apply Hhe; lia |].
      exists (t_p st). rewrite Hin. split; [done |].
      destruct (Hhe ltac:(lia)) as [Hh He].
      unfold payload_of_tick. rewrite Hps, Hpt.
      split_and!; [done | done | |].
      * destruct (flush_done (pc_stats st)); eauto.
      * destruct (flush_done (pc_traces st)); eauto.
  - (* the goroutine of Concentrator.Flush *)
    destruct (pc_stats st) as [[|[|n]]|] eqn:Hpc; [| | done | done].
    + simpl in Hc. rewrite Hc in Hstep.
      destruct (Flush (Concentrator_ a) now) as [sb c0] eqn:Hf.
      injection Hstep as <-. simpl in *.
      split_and!; try done. intros Hle. by specialize (Hst Hle).
    + injection Hstep as <-. simpl in *.
      split_and!; try done; [intros Hle; by specialize (Hst Hle) | lia].
  - (* the goroutine of Sampler.Flush *)
    destruct (pc_traces st) as [[|[|n]]|] eqn:Hpc; [| | done | done].
    + simpl in Hs. rewrite Hs in Hstep.
      injection Hstep as <-. simpl in *.
      split_and!; try done. intros Hle. by specialize (Htr Hle).
    + injection Hstep as <-. simpl in *.
      split_and!; try done; [intros Hle; by specialize (Htr Hle) | lia].
Qed.

Lemma run_schedule_inv (a : Agent) (cf : AgentConfig) (now : Z) (sched : list task)
    (st st' : tick_state) :
  tick_inv a cf now st -> run_schedule cf now sched st = Some st' ->
  tick_inv a cf now st'.
Proof.
  revert st. induction sched as [|who sched IH]; intros st Hinv Hrun; simpl in Hrun.
  - by injection Hrun as <-.
  - destruct (tick_step cf now who st) as [st1|] eqn:Hstep; [| done].
    eapply IH; [| done]. by eapply tick_step_inv.
Qed.

(** X17.  Whatever the order in which the loop of [Run] and the two goroutines
    take their steps (a step is one statement of the source, taken whole),
    when all three are done the tick has sent exactly
    one payload; it carries the configured host name and environment; its
    stats are the whole result of [Concentrator.Flush] or nothing, its
    traces the whole staged buffer of the sampler or nothing; both
    flushes have run once, and the WaitGroup is back at zero. *)
Theorem tick_any_schedule (a : Agent) (cf : AgentConfig) (now : Z)
    (sched : list task) (st : tick_state) :
  run_schedule cf now sched (tick_start a) = Some st ->
  tick_done st ->
  (exists p, t_inPayloads st = inPayloads a ++ [p]
     /\ p_HostName p = HostName cf
     /\ p_Env p = DefaultEnv cf
     /\ (p_Stats p = [] \/ p_Stats p = (Flush (Concentrator_ a) now).1)
     /\ (p_Traces p = [] \/ p_Traces p = staged (Sampler_ a)))
  /\ t_conc st = (Flush (Concentrator_ a) now).2
  /\ t_sampler st = {| staged := [] |}
  /\ t_wg st = 0.
Proof.
  intros Hrun (Hl & Hs & Ht).
  pose proof (run_schedule_inv a cf now sched _ _ (tick_start_inv a cf now) Hrun)
    as (Hc & Hsa & _ & _ & _ & _ & _ & _ & Hin & Hwg).
  rewrite Hl, Hs, Ht in *. simpl in *.
  destruct Hin as (p & Hp & Hpay). split_and!; [| done | done | lia].
  exists p. by split.
Qed.

End AgentFurther.

(** ** The loop of the sampler *)

Section SamplerProperties.
Context `{Packages} {E : Type} `{!SamplerEngine E}.

(** X18.  The loop of [Sampler.run] keeps what it has sent on [out] and sends
    one payload for each payload it receives before the first exit; it
    receives nothing after an exit. *)
Theorem Sampler_run_outputs (events : list sampler_event) (st : sampler_state E) :
  (exists outs, s_out (Sampler_run events st) = s_out st ++ outs
     /\ length outs = length (payloads_before_exit events))
  /\ (forall events',
        Sampler_run (events ++ recv_exit :: events') st =
        Sampler_run (events ++ [recv_exit]) st)
  /\ (forall events',
        s_returned (Sampler_run (events ++ recv_exit :: events') st) = true).
Proof.
  revert st. induction events as [|ev events IH]; intros st.
  - split_and!; [exists []; by rewrite app_nil_r | done | done].
  - destruct ev as [span | ap |]; cbn [Sampler_run payloads_before_exit app].
    + destruct (IH {| s_se := AddSpan (s_se st) span; s_out := s_out st;
                      s_returned := s_returned st |}) as ((outs & Ho & Hl) & H2 & H3).
      split_and!; [by exists outs | done | done].
    + destruct (FlushPayload (s_se st) ap) as [p e].
      destruct (IH {| s_se := e; s_out := s_out st ++ [p];
                      s_returned := s_returned st |}) as ((outs & Ho & Hl) & H2 & H3).
      split_and!; [| done | done].
      exists (p :: outs). simpl in *. rewrite Ho, <- app_assoc. split; [done | lia].
    + split_and!; [exists []; by rewrite app_nil_r | done | done].
Qed.

End SamplerProperties.

(** ** model/span.go *)

(** X19.  A flush marker is recognised as one, as the test of the package
    asserts; the spans recognised are those of the marker type. *)
Theorem flush_marker_recognised :
  IsFlushMarker NewFlushMarker = true
  /\ forall s : Span, IsFlushMarker s = true <-> Type_ s = "_FLUSH_MARKER".
Proof.
  split; [done |]. intros s. unfold IsFlushMarker, flushMarkerType.
  apply String.eqb_eq.
Qed.

(** * Further concrete runs *)

(** A span that ends at 12 lies in the bucket that starts at 10. *)
Lemma btime_interval_witness :
  btime demo_conc (mk_span 1 1 10 2) <= 12 < btime demo_conc (mk_span 1 1 10 2) + 5.
Proof.
  destruct (btime_interval demo_conc (mk_span 1 1 10 2) ltac:(by vm_compute))
    as [Hpos _].
  apply Hpos. by vm_compute.
Defined.

(** [demo_conc] flushed twice at 100. *)
Lemma Flush_twice_witness :
  (Flush (Flush demo_conc 100).2 100).1 = []
  /\ (Flush (Flush demo_conc 100).2 100).2 = (Flush demo_conc 100).2.
Proof. apply (Flush_twice demo_conc 100 100). by vm_compute. Defined.

(** [demo_pt] added to [demo_conc]: the bucket at 10 stays, the map has at
    most four buckets. *)
Lemma Add_keeps_buckets_witness :
  match Add demo_conc demo_pt with
  | Ok c' => dom (buckets demo_conc) ⊆ dom (buckets c')
             /\ (size (buckets c') <= 1 + 3)%nat
  | Panic _ => False
  end.
Proof.
  destruct (Add demo_conc demo_pt) as [c' | msg] eqn:Hadd.
  - destruct (Add_keeps_buckets demo_conc demo_pt c' Hadd) as (Hdom & _ & Hsize).
    split; [exact Hdom | exact Hsize].
  - by vm_compute in Hadd.
Defined.

(** The bucket at 10 of [demo_conc] is flushed at 100; a span that ends
    at 12 then opens a bucket at 10 that holds this span only. *)
Lemma Add_after_Flush_witness :
  let t := {| pt_Trace := [mk_span 1 9 10 2]; pt_Root := None; pt_Env := "none";
              pt_Sublayers := None |} in
  exists c', Add (Flush demo_conc 100).2 t = Ok c'
    /\ buckets c' !! 10 = Some (demo_b 10 [9]).
Proof.
  intros t.
  destruct (Add_after_Flush_new_bucket demo_conc 100 t (mk_span 1 9 10 2)
              ltac:(by vm_compute) ltac:(reflexivity) ltac:(by vm_compute))
    as (c' & Hadd & Hb & _).
  exists c'. split; [exact Hadd |]. etransitivity; [exact Hb | reflexivity].
Defined.

(** Scenario B on three spans with the trace IDs 7, 7 and 8. *)
Lemma v01_regroups_witness :
  exists ts : list Trace,
    decode_switch v01 new_ResponseWriter "" body_778 = Decoded new_ResponseWriter ts
    /\ mjoin ts ≡ₚ demo_span <$> body_778
    /\ length ts = 2%nat.
Proof.
  destruct (v01_regroups_by_trace_id new_ResponseWriter "" body_778
              (demo_span <$> body_778) ltac:(reflexivity) ltac:(reflexivity))
    as (ts & Hd & Hj & Hl & _).
  exists ts. split_and!; [exact Hd | exact Hj |].
  etransitivity; [exact Hl | by vm_compute].
Defined.

(** A v0.2 request whose one trace has two valid spans of trace 7. *)
Lemma clean_trace_witness :
  handleTraces v02 NewHTTPReceiver new_ResponseWriter
    {| Body := Some (ReadOk [Byte.x71; Byte.x72]);
       ContentType := "application/json" |} =
  Ok ({| traces := [demo_span <$> [Byte.x71; Byte.x72]];
         stats := {| Errors := 0; SpansReceived := 2; TracesReceived := 1;
                     SpansDropped := 0; TracesDropped := 0 |} |},
      {| wroteHeader := Some 200; written := "OK" ++ nl |}).
Proof.
  assert (same_trace_id (demo_span <$> [Byte.x71; Byte.x72])) as Hsame.
  { apply (proj2 (same_trace_id_cons (demo_span Byte.x71) [demo_span Byte.x72])).
    by repeat constructor. }
  assert (Forall (fun s => ~ fails s) (demo_span <$> [Byte.x71; Byte.x72])) as Hok.
  { repeat constructor; intros [e He]; by vm_compute in He. }
  assert (demo_span <$> [Byte.x71; Byte.x72] <> []) as Hne by discriminate.
  assert (decode_switch v02 new_ResponseWriter "application/json"
            [Byte.x71; Byte.x72] =
          Decoded new_ResponseWriter
            ([] ++ (demo_span <$> [Byte.x71; Byte.x72]) :: [])) as Hd by reflexivity.
  destruct (clean_trace_forwarded_in_order v02 NewHTTPReceiver new_ResponseWriter
              {| Body := Some (ReadOk [Byte.x71; Byte.x72]);
                 ContentType := "application/json" |}
              [Byte.x71; Byte.x72] [] [] (demo_span <$> [Byte.x71; Byte.x72])
              ltac:(reflexivity) ltac:(reflexivity) ltac:(reflexivity) Hd
              Hne Hsame Hok)
    as (st1 & st2 & sent_pre & sent_post & Hpre & Hpost & Hc1 & Hc2 & Hrun).
  simpl in Hpre. injection Hpre as <-.
  simpl in Hpost. injection Hpost as <-.
  simpl in Hc1, Hc2.
  destruct sent_pre; [| discriminate Hc1].
  destruct sent_post; [| discriminate Hc2].
  rewrite Hrun. reflexivity.
Defined.

(** Scenario C once more: one trace decoded, none sent, one dropped. *)
Lemma traces_counted_witness :
  exists l' sent received dropped,
    handleTraces v02 NewHTTPReceiver new_ResponseWriter
      {| Body := Some (ReadOk body_778); ContentType := "" |} =
      Ok (l', HTTPOK new_ResponseWriter)
    /\ traces l' = [] ++ sent
    /\ received = Z.of_nat (length sent)
    /\ received + dropped = 1.
Proof.
  destruct (traces_received_or_dropped v02 NewHTTPReceiver new_ResponseWriter
              {| Body := Some (ReadOk body_778); ContentType := "" |}
              body_778 new_ResponseWriter [demo_span <$> body_778] ltac:(reflexivity) ltac:(reflexivity))
    as (l' & sent & received & dropped & Hrun & Hc & _ & _ & Hr & Hd & _).
  exists l', sent, received, dropped. by split_and!.
Defined.

(** Scenario E: the answer is 415 and the receiver is unchanged. *)
Lemma handleTraces_answers_witness :
  match handleTraces v01 NewHTTPReceiver new_ResponseWriter
          {| Body := Some (ReadOk body_11); ContentType := "application/msgpack" |} with
  | Ok (l', w') => wroteHeader w' = Some 415 /\ l' = NewHTTPReceiver
  | Panic _ => False
  end.
Proof.
  destruct (handleTraces v01 NewHTTPReceiver new_ResponseWriter
              {| Body := Some (ReadOk body_11); ContentType := "application/msgpack" |})
    as [[l' w'] | msg] eqn:Hrun; [| by vm_compute in Hrun].
  destruct (handleTraces_answers v01 NewHTTPReceiver new_ResponseWriter _ l' w'
              ltac:(by left) ltac:(reflexivity) Hrun)
    as [(_ & _ & _ & [Hb | Hb]) | [(H415 & Hl & _) | [(H500 & _) | H200]]].
  - discriminate Hb.
  - discriminate Hb.
  - exact (conj H415 Hl).
  - vm_compute in Hrun. injection Hrun as <- <-. discriminate H500.
  - vm_compute in Hrun. injection Hrun as <- <-. discriminate H200.
Defined.

(** A version 7: the answer has status 500 and both texts. *)
Lemma unsupported_version_witness :
  exists l',
    handleTraces 7 NewHTTPReceiver new_ResponseWriter
      {| Body := Some (ReadOk body_11); ContentType := "" |} =
    Ok (l', {| wroteHeader := Some 500;
               written := "unsupported-endpoint" ++ nl ++ "OK" ++ nl |}).
Proof.
  eexists.
  exact (unsupported_version_goes_on 7 NewHTTPReceiver new_ResponseWriter
           {| Body := Some (ReadOk body_11); ContentType := "" |} body_11
           ltac:(discriminate) ltac:(discriminate) ltac:(discriminate)
           ltac:(reflexivity) ltac:(reflexivity) ltac:(reflexivity)).
Defined.

(** A services request to v0.1 with one service. *)
Lemma handleServices_witness :
  wroteHeader (handleServices v01 [] new_ResponseWriter
                 {| Body := Some (ReadOk body_11); ContentType := "" |}).2 = Some 200
  /\ exists servicesMeta,
       (handleServices v01 [] new_ResponseWriter
          {| Body := Some (ReadOk body_11); ContentType := "" |}).1 = [] ++ [servicesMeta].
Proof.
  destruct (handleServices_answers v01 [] new_ResponseWriter
              {| Body := Some (ReadOk body_11); ContentType := "" |}
              ltac:(by left) ltac:(reflexivity))
    as (_ & [Hok | (_ & [(_ & [Hb | Hb]) | [(H415 & _) | H500]])]).
  - exact Hok.
  - discriminate Hb.
  - discriminate Hb.
  - by vm_compute in H415.
  - by vm_compute in H500.
Defined.

(** A span that ends at 40, a cutoff of 30 and the clock at 70: the root
    ends exactly at the cutoff and the trace is dispatched. *)
Lemma on_time_witness :
  exists pt, Process demo_conf 70 [mk_span 1 1 0 40] =
             Ok [go_Concentrator_Add pt; go_Sampler_Add pt]
    /\ length (pt_Trace pt) = 1%nat.
Proof.
  destruct (on_time_trace_dispatched demo_conf 70 [mk_span 1 1 0 40] (mk_span 1 1 0 40)
              ltac:(discriminate) ltac:(reflexivity) ltac:(by vm_compute))
    as (Hp & Hl & _).
  eexists. split; [exact Hp | exact Hl].
Defined.

(** The same trace, run on [demo_conc]: its span gets the bucket at 40. *)
Lemma dispatched_witness :
  exists gs c', Process demo_conf 70 [mk_span 1 1 0 40] = Ok gs
    /\ for_each run_goroutine gs demo_conc = Ok c'
    /\ is_Some (buckets c' !! 40).
Proof.
  destruct (dispatched_trace_gets_buckets demo_conf 70 [mk_span 1 1 0 40]
              (mk_span 1 1 0 40) demo_conc
              ltac:(discriminate) ltac:(reflexivity) ltac:(by vm_compute) ltac:(discriminate))
    as (gs & c' & Hp & Hne & Hrun & Hb).
  exists gs, c'. split_and!; [exact Hp | exact Hrun |].
  assert (Process demo_conf 70 [mk_span 1 1 0 40] =
          Ok [go_Concentrator_Add
                {| pt_Trace := [mk_span 1 1 0 40]; pt_Root := Some (mk_span 1 1 0 40);
                   pt_Env := "none"; pt_Sublayers := None |};
              go_Sampler_Add
                {| pt_Trace := [mk_span 1 1 0 40]; pt_Root := Some (mk_span 1 1 0 40);
                   pt_Env := "none"; pt_Sublayers := None |}]) as Hp' by reflexivity.
  rewrite Hp' in Hp. injection Hp as <-.
  apply (Hb (go_Concentrator_Add
               {| pt_Trace := [mk_span 1 1 0 40]; pt_Root := Some (mk_span 1 1 0 40);
                  pt_Env := "none"; pt_Sublayers := None |}) (mk_span 1 1 0 40)).
  - left.
  - left.
Defined.

(** The tick of [demo_agent] under the schedule [flushes_first]. *)
Lemma tick_any_schedule_witness :
  exists st, run_schedule demo_conf 100 flushes_first (tick_start demo_agent) = Some st
    /\ t_wg st = 0
    /\ t_sampler st = {| staged := [] |}.
Proof.
  destruct (tick_flushes_first demo_agent demo_conf 100) as (st & Hrun & Hdone & _).
  destruct (tick_any_schedule demo_agent demo_conf 100 flushes_first st Hrun Hdone)
    as (_ & _ & Hs & Hwg).
  exists st. by split_and!.
Defined.
